(** * MediaControl for Linux: the refresh tick and its helpers

    A shallow embedding of [mediacontrol_Linux.py].  The program is a Tkinter
    front-end over two command-line tools, [playerctl] and [pactl]; what is
    modelled is everything the timer callback [update_info] and the transport
    buttons execute: the command runner, the player registry, the status and
    volume formatters, the selection logic and the widget variables they write.

    - A Python [str] is a sequence of Unicode code points, so [len] and slicing
      count code points: strings are lists of code points ([N]).
    - Python exceptions are modelled by an explicit result type; [try]/[except]
      is an explicit handler.
    - The module globals ([selected_player], [player_list]), the Tk variables
      and the record of the external processes started so far form one state
      that is threaded through a small state-and-exception monad.
    - The external tools are an oracle: the reply to an invocation may depend
      on every invocation made before it. *)

From Stdlib Require Import String Ascii.
From Stdlib Require Import List NArith ZArith Bool Lia.
Import ListNotations.

Local Open Scope list_scope.

(** ** Python strings *)

Definition char := N.
Definition str := list char.

(** ASCII literals; characters outside ASCII are written as code points. *)
Fixpoint lit (s : string) : str :=
  match s with
  | EmptyString => []
  | String c r => N_of_ascii c :: lit r
  end.

Fixpoint str_eqb (a b : str) : bool :=
  match a, b with
  | [], [] => true
  | x :: a', y :: b' => N.eqb x y && str_eqb a' b'
  | _, _ => false
  end.

(** Truth value of a string: non-empty. *)
Definition truthy (s : str) : bool :=
  match s with [] => false | _ :: _ => true end.

(** [str.isspace] on one code point (CPython's [_PyUnicode_IsWhitespace]). *)
Definition isspace (c : char) : bool :=
  ((9 <=? c) && (c <=? 13) || (28 <=? c) && (c <=? 32) || (c =? 133) || (c =? 160)
   || (c =? 5760) || (8192 <=? c) && (c <=? 8202) || (c =? 8232) || (c =? 8233)
   || (c =? 8239) || (c =? 8287) || (c =? 12288))%N.

(** Line boundaries of [str.splitlines], the pair CR LF apart. *)
Definition islinebreak (c : char) : bool :=
  ((10 <=? c) && (c <=? 13) || (28 <=? c) && (c <=? 30) || (c =? 133)
   || (c =? 8232) || (c =? 8233))%N.

Fixpoint lstrip (s : str) : str :=
  match s with
  | [] => []
  | c :: r => if isspace c then lstrip r else s
  end.

Definition rstrip (s : str) : str := rev (lstrip (rev s)).

(** [s.strip()] *)
Definition strip (s : str) : str := rstrip (lstrip s).

(** [s.splitlines()]: [cur] is the current line, reversed. *)
Fixpoint splitlines_from (cur : str) (s : str) : list str :=
  match s with
  | [] => match cur with [] => [] | _ :: _ => [rev cur] end
  | c :: r =>
      if (c =? 13)%N then
        match r with
        | c' :: r' => if (c' =? 10)%N then rev cur :: splitlines_from [] r'
                      else rev cur :: splitlines_from [] r
        | [] => [rev cur]
        end
      else if islinebreak c then rev cur :: splitlines_from [] r
      else splitlines_from (c :: cur) r
  end.

Definition splitlines (s : str) : list str := splitlines_from [] s.

(** [s.split()] with no separator: runs of whitespace separate the words. *)
Fixpoint split_from (cur : str) (s : str) : list str :=
  match s with
  | [] => match cur with [] => [] | _ :: _ => [rev cur] end
  | c :: r =>
      if isspace c then
        match cur with
        | [] => split_from [] r
        | _ :: _ => rev cur :: split_from [] r
        end
      else split_from (c :: cur) r
  end.

Definition split (s : str) : list str := split_from [] s.

(** [s.split(sep)] for a one-character separator: never an empty list. *)
Fixpoint split_sep_from (sep : char) (cur : str) (s : str) : list str :=
  match s with
  | [] => [rev cur]
  | c :: r =>
      if (c =? sep)%N then rev cur :: split_sep_from sep [] r
      else split_sep_from sep (c :: cur) r
  end.

Definition split_sep (sep : char) (s : str) : list str := split_sep_from sep [] s.

(** [s.startswith(p)] *)
Fixpoint startswith (p s : str) : bool :=
  match p, s with
  | [], _ => true
  | _ :: _, [] => false
  | x :: p', y :: s' => N.eqb x y && startswith p' s'
  end.

(** [p in s] *)
Fixpoint contains (p s : str) : bool :=
  startswith p s ||
  match s with
  | [] => false
  | _ :: r => contains p r
  end.

(** [a or b] on optional strings: [a] when it is neither [None] nor empty. *)
Definition or_else (a : option str) (b : str) : str :=
  match a with
  | Some x => if truthy x then x else b
  | None => b
  end.

(** Truth value of the global [selected_player]: [None], or a pair. *)
Definition is_set {A : Type} (o : option A) : bool :=
  match o with Some _ => true | None => false end.

Definition dot : char := 46%N.
Definition slash : char := 47%N.
Definition ellipsis : str := lit "...".
(** U+2192, the arrow of the friendly label. *)
Definition arrow : char := 8594%N.

(** ** Exceptions, processes and the program state *)

(** The exceptions ([Exception] subclasses) the modelled operations raise:
    [subprocess.run] may raise [OSError] or [UnicodeDecodeError], an index
    out of range raises [IndexError], a widget operation [TclError]. *)
Inductive exn : Type := IndexError | TclError | OSError | UnicodeDecodeError.

Inductive result (A : Type) : Type :=
  | Ok (a : A)
  | Raise (e : exn).
Arguments Ok {A} a.
Arguments Raise {A} e.

(** What [subprocess.run(..., capture_output=True, text=True)] returns. *)
Record CompletedProcess : Type := mkCompleted {
  returncode : Z;
  stdout : str
}.

(** A call of [subprocess.run]: an argument vector, or a shell command line. *)
Inductive invocation : Type :=
  | Argv (cmd : list str)
  | Shell (cmd : str).

(** The globals of the module, the Tk widget state the callbacks write, and
    the external processes started so far (most recent first).  A combobox
    is its list of values and the text it shows; [timers] holds the delays of
    the pending [root.after(ms, update_info)] callbacks. *)
Record State : Type := mkState {
  selected_player : option (str * str);
  player_list : list (str * str);
  combo_values : list str;
  combo_text : str;
  title_var : str;
  status_var : str;
  volume_var : str;
  root_exists : bool;
  timers : list N;
  history : list invocation
}.

Definition with_selected_player (v : option (str * str)) (s : State) : State :=
  mkState v (player_list s) (combo_values s) (combo_text s) (title_var s)
    (status_var s) (volume_var s) (root_exists s) (timers s) (history s).
Definition with_player_list (v : list (str * str)) (s : State) : State :=
  mkState (selected_player s) v (combo_values s) (combo_text s) (title_var s)
    (status_var s) (volume_var s) (root_exists s) (timers s) (history s).
Definition with_combo_values (v : list str) (s : State) : State :=
  mkState (selected_player s) (player_list s) v (combo_text s) (title_var s)
    (status_var s) (volume_var s) (root_exists s) (timers s) (history s).
Definition with_combo_text (v : str) (s : State) : State :=
  mkState (selected_player s) (player_list s) (combo_values s) v (title_var s)
    (status_var s) (volume_var s) (root_exists s) (timers s) (history s).
Definition with_title_var (v : str) (s : State) : State :=
  mkState (selected_player s) (player_list s) (combo_values s) (combo_text s) v
    (status_var s) (volume_var s) (root_exists s) (timers s) (history s).
Definition with_status_var (v : str) (s : State) : State :=
  mkState (selected_player s) (player_list s) (combo_values s) (combo_text s)
    (title_var s) v (volume_var s) (root_exists s) (timers s) (history s).
Definition with_volume_var (v : str) (s : State) : State :=
  mkState (selected_player s) (player_list s) (combo_values s) (combo_text s)
    (title_var s) (status_var s) v (root_exists s) (timers s) (history s).
Definition with_timers (v : list N) (s : State) : State :=
  mkState (selected_player s) (player_list s) (combo_values s) (combo_text s)
    (title_var s) (status_var s) (volume_var s) (root_exists s) v (history s).
Definition with_history (v : list invocation) (s : State) : State :=
  mkState (selected_player s) (player_list s) (combo_values s) (combo_text s)
    (title_var s) (status_var s) (volume_var s) (root_exists s) (timers s) v.

(** What the window shows: title, status, volume, and the combobox. *)
Definition display (s : State) : str * str * str * list str * str :=
  (title_var s, status_var s, volume_var s, combo_values s, combo_text s).

(** ** The monad: state threading with exceptions *)

Definition M (A : Type) : Type := State -> result A * State.

Definition ret {A : Type} (a : A) : M A := fun s => (Ok a, s).

Definition raise {A : Type} (e : exn) : M A := fun s => (Raise e, s).

Definition bind {A B : Type} (m : M A) (k : A -> M B) : M B :=
  fun s =>
    match m s with
    | (Ok a, s') => k a s'
    | (Raise e, s') => (Raise e, s')
    end.

(** [try: m  except: h]; the state changes made before the raise stay. *)
Definition try_except {A : Type} (m : M A) (h : exn -> M A) : M A :=
  fun s =>
    match m s with
    | (Ok a, s') => (Ok a, s')
    | (Raise e, s') => h e s'
    end.

Definition get : M State := fun s => (Ok s, s).

Definition modify (f : State -> State) : M unit := fun s => (Ok tt, f s).

Declare Scope monad_scope.
Delimit Scope monad_scope with monad.
Notation "x <- m ;; k" := (bind m (fun x => k))
  (at level 61, m at next level, right associativity) : monad_scope.
Notation "m ;; k" := (bind m (fun _ => k))
  (at level 61, right associativity) : monad_scope.
Local Open Scope monad_scope.

(** [xs[i]] *)
Definition getitem {A : Type} (xs : list A) (i : nat) : M A :=
  match nth_error xs i with
  | Some x => ret x
  | None => raise IndexError
  end.

(** [player_combo.set(text)] *)
Definition combo_set (text : str) : M unit := modify (with_combo_text text).

(** [player_combo.current(i)]: show the [i]-th value; Tk refuses an index
    outside the list of values. *)
Definition combo_current (i : nat) : M unit :=
  fun s =>
    match nth_error (combo_values s) i with
    | Some v => (Ok tt, with_combo_text v s)
    | None => (Raise TclError, s)
    end.

(** [root.after(ms, update_info)] *)
Definition root_after (ms : N) : M unit :=
  modify (fun s => with_timers (timers s ++ [ms]) s).

(** [root.winfo_exists()] *)
Definition winfo_exists : M bool := fun s => (Ok (root_exists s), s).

Section Program.

(** The path [shutil.which("playerctl")] found at start-up. *)
Variable PLAYERCTL : str.

(** Python's [str.capitalize], a library function on Unicode text. *)
Variable capitalize : str -> str.

(** The outside world: what [subprocess.run] does for an invocation, given
    the invocations made so far. *)
Variable world : list invocation -> invocation -> result CompletedProcess.

Definition subprocess_run (inv : invocation) : M CompletedProcess :=
  fun s => (world (history s) inv, with_history (inv :: history s) s).

(** Lines 78-81: the argument vector of a [playerctl] call. *)
Definition playerctl_cmd (args : list str) (player : option str) : list str :=
  [PLAYERCTL]
  ++ match player with
     | Some p => if truthy p then [lit "-p"; p] else []
     | None => []
     end
  ++ args.

(** [log] only prints when debugging: the handler's effect is its result. *)
Definition run_playerctl (args : list str) (player : option str) : M (option str) :=
  let cmd := playerctl_cmd args player in
  try_except
    (result <- subprocess_run (Argv cmd) ;;
     ret (if (returncode result =? 0)%Z then Some (strip (stdout result)) else None))
    (fun _ => ret None).

Definition metadata_format : str := lit "{{xesam:artist}} - {{xesam:title}}".

Definition get_friendly_name (player_id : str) : M str :=
  data <- run_playerctl [lit "metadata"; lit "--format"; metadata_format] (Some player_id) ;;
  prefix <- getitem (split_sep dot player_id) 0 ;;
  let app := capitalize prefix in
  match data with
  | Some ((_ :: _) as data) =>
      let short := firstn 60 data ++ (if (60 <? length data)%nat then ellipsis else []) in
      ret (app ++ lit " " ++ [arrow] ++ lit " " ++ short)
  | _ => ret app
  end.

(** The loop of [list_players] over the lines of the listing. *)
Fixpoint list_players_loop (lines : list str) (players : list (str * str))
  : M (list (str * str)) :=
  match lines with
  | [] => ret players
  | line :: rest =>
      let line := strip line in
      if negb (truthy line) || startswith (lit "No players found") line
      then list_players_loop rest players
      else
        name <- get_friendly_name line ;;
        list_players_loop rest (players ++ [(line, name)])
  end.

Definition list_players : M (list (str * str)) :=
  result <- run_playerctl [lit "-l"] None ;;
  match result with
  | Some ((_ :: _) as result) => list_players_loop (splitlines result) []
  | _ => ret []
  end.

Definition status_playing : str := 9654%N :: lit " Tocando".
Definition status_paused : str := 9208%N :: lit " Pausado".
Definition status_stopped : str := 9632%N :: lit " Parado".

Definition get_player_status (player : str) : M str :=
  status <- run_playerctl [lit "status"] (Some player) ;;
  match status with
  | Some st =>
      if str_eqb st (lit "Playing") then ret status_playing
      else if str_eqb st (lit "Paused") then ret status_paused
      else ret status_stopped
  | None => ret status_stopped
  end.

Definition run_cmd (cmd : str) : M (option str) :=
  s <- get ;;
  match selected_player s with
  | None => ret None
  | Some sp =>
      let player := fst sp in
      run_playerctl (split cmd) (Some player)
  end.

Definition play_pause : M unit := run_cmd (lit "play-pause") ;; ret tt.
Definition next_track : M unit := run_cmd (lit "next") ;; ret tt.
Definition prev_track : M unit := run_cmd (lit "previous") ;; ret tt.
Definition seek_forward : M unit := run_cmd (lit "position 10+") ;; ret tt.
Definition seek_backward : M unit := run_cmd (lit "position 10-") ;; ret tt.

Definition volume_unknown : str := lit "--%".
Definition get_volume_cmd : str := lit "pactl get-sink-volume @DEFAULT_SINK@".

(** The loop of [get_volume]: [Some vol] is the early [return vol]. *)
Fixpoint get_volume_loop (lines : list str) : M (option str) :=
  match lines with
  | [] => ret None
  | line :: rest =>
      if contains (lit "Volume:") line then
        field <- getitem (split_sep slash line) 1 ;;
        ret (Some (strip field))
      else get_volume_loop rest
  end.

Definition get_volume : M str :=
  found <- try_except
             (r <- subprocess_run (Shell get_volume_cmd) ;;
              get_volume_loop (splitlines (stdout r)))
             (fun _ => ret None) ;;
  match found with
  | Some vol => ret vol
  | None => ret volume_unknown
  end.

Definition no_active_player : str := lit "Nenhum player ativo".
Definition no_player_selected : str := lit "Nenhum player selecionado".
Definition select_a_player : str := lit "Selecione um player acima".
Definition title_unavailable : str :=
  lit "T" ++ [237%N] ++ lit "tulo indispon" ++ [237%N] ++ lit "vel".

Definition update_info (force : bool) : M unit :=
  players <- list_players ;;
  modify (with_player_list players) ;;
  let display_names := map snd players in
  modify (with_combo_values display_names) ;;
  (match display_names with
   | [] =>
       combo_set no_active_player ;;
       modify (with_selected_player None)
   | _ :: _ =>
       s <- get ;;
       if is_set (selected_player s) && negb force then ret tt
       else
         combo_current 0 ;;
         s <- get ;;
         match player_list s with
         | [] => modify (with_selected_player None)
         | _ :: _ => first <- getitem (player_list s) 0 ;;
                     modify (with_selected_player (Some first))
         end
   end) ;;
  s <- get ;;
  (match selected_player s with
   | None =>
       modify (with_title_var no_player_selected) ;;
       modify (with_status_var select_a_player)
   | Some sp =>
       title <- run_cmd (lit "metadata xesam:title") ;;
       let title := or_else title title_unavailable in
       artist <- run_cmd (lit "metadata xesam:artist") ;;
       let artist := or_else artist [] in
       status <- get_player_status (fst sp) ;;
       modify (with_title_var
                 (firstn 50 title ++ (if (50 <? length title)%nat then ellipsis else []))) ;;
       modify (with_status_var (strip (artist ++ lit " " ++ status)))
   end) ;;
  vol <- get_volume ;;
  modify (with_volume_var vol) ;;
  alive <- winfo_exists ;;
  if alive then root_after 3000 else ret tt.

End Program.

(** ** Concrete worlds, used to run the program on examples *)

(** [str.capitalize] restricted to ASCII letters. *)
Definition ascii_upper (c : char) : char :=
  if ((97 <=? c) && (c <=? 122))%N then (c - 32)%N else c.
Definition ascii_lower (c : char) : char :=
  if ((65 <=? c) && (c <=? 90))%N then (c + 32)%N else c.
Definition ascii_capitalize (s : str) : str :=
  match s with
  | [] => []
  | c :: r => ascii_upper c :: map ascii_lower r
  end.

Definition playerctl_path : str := lit "/usr/bin/playerctl".

Fixpoint args_eqb (a b : list str) : bool :=
  match a, b with
  | [], [] => true
  | x :: a', y :: b' => str_eqb x y && args_eqb a' b'
  | _, _ => false
  end.

Definition completed (out : string) : result CompletedProcess :=
  Ok (mkCompleted 0 (lit out)).

Definition failed : result CompletedProcess := Ok (mkCompleted 1 []).

Definition newline : string := String (ascii_of_N 10) EmptyString.

Definition pactl_output : str :=
  lit ("Volume: front-left: 29491 /  45% / -20.81 dB,   front-right: 29491 /  45% / -20.81 dB"
       ++ newline ++ "        balance 0.00" ++ newline).

Definition long_title : string :=
  "A Very Long Symphony Title That Goes On And On Past The Limit".

(** Two players, as in the end-to-end scenario; replies do not depend on the
    invocations made before. *)
Definition two_players (_ : list invocation) (inv : invocation)
  : result CompletedProcess :=
  match inv with
  | Shell _ => Ok (mkCompleted 0 pactl_output)
  | Argv (_ :: args) =>
      if args_eqb args [lit "-l"] then
        completed ("spotify.instance1" ++ newline ++ "firefox.instance2" ++ newline)
      else if args_eqb args [lit "-p"; lit "spotify.instance1"; lit "metadata";
                             lit "--format"; lit "{{xesam:artist}} - {{xesam:title}}"] then
        completed ("Some Artist - " ++ long_title ++ newline)
      else if args_eqb args [lit "-p"; lit "spotify.instance1"; lit "metadata"; lit "xesam:title"] then
        completed (long_title ++ newline)
      else if args_eqb args [lit "-p"; lit "spotify.instance1"; lit "metadata"; lit "xesam:artist"] then
        completed ("Some Artist" ++ newline)
      else if args_eqb args [lit "-p"; lit "spotify.instance1"; lit "status"] then
        completed ("Playing" ++ newline)
      else if args_eqb args [lit "-p"; lit "firefox.instance2"; lit "status"] then
        completed ("Paused" ++ newline)
      else failed
  | Argv [] => Raise OSError
  end.

(** No player at all: the listing succeeds and is empty; [pactl] is missing. *)
Definition no_players (_ : list invocation) (inv : invocation)
  : result CompletedProcess :=
  match inv with
  | Shell _ => Raise OSError
  | Argv _ => completed ""
  end.

(** One player is listed and every other query exits with status 1. *)
Definition queries_fail (_ : list invocation) (inv : invocation)
  : result CompletedProcess :=
  match inv with
  | Shell _ => failed
  | Argv (_ :: args) =>
      if args_eqb args [lit "-l"] then completed ("vlc" ++ newline) else failed
  | Argv [] => failed
  end.

(** The state at start-up: the globals and the Tk variables as initialised. *)
Definition initial_state : State :=
  mkState None [] [] [] (lit "Carregando...") [] (lit "--%") true [] [].

(** The two entries of the registry in the world [two_players]. *)
Definition spotify : str * str :=
  (lit "spotify.instance1",
   lit "Spotify " ++ [arrow]
   ++ lit " Some Artist - A Very Long Symphony Title That Goes On And On...").

Definition firefox : str * str := (lit "firefox.instance2", lit "Firefox").

(** The second player picked by the user, and its label shown. *)
Definition firefox_selected : State :=
  mkState (Some firefox) [spotify; firefox] [snd spotify; snd firefox] (snd firefox)
    (lit "Carregando...") [] (lit "--%") true [] [].

(** The only entry of the registry in the world [queries_fail]. *)
Definition vlc : str * str := (lit "vlc", lit "Vlc").

(** The first line of [pactl_output], cut at its first two slashes. *)
Definition volume_line_head : str := lit "Volume: front-left: 29491 ".
Definition volume_line_field : str := lit "  45% ".
Definition volume_line_tail : str :=
  lit " -20.81 dB,   front-right: 29491 /  45% / -20.81 dB".

(** ** Pure views of the queries

    What each query returns as a function of the outcome of its one external
    call.  The lemmas [run_playerctl_eq], [get_player_status_eq] and
    [get_volume_eq] below prove that the program computes exactly these. *)

Definition reply_of (r : result CompletedProcess) : option str :=
  match r with
  | Ok p => if (returncode p =? 0)%Z then Some (strip (stdout p)) else None
  | Raise _ => None
  end.

Definition status_text (status : option str) : str :=
  match status with
  | Some st =>
      if str_eqb st (lit "Playing") then status_playing
      else if str_eqb st (lit "Paused") then status_paused
      else status_stopped
  | None => status_stopped
  end.

Fixpoint scan_volume (lines : list str) : result (option str) :=
  match lines with
  | [] => Ok None
  | line :: rest =>
      if contains (lit "Volume:") line then
        match nth_error (split_sep slash line) 1 with
        | Some field => Ok (Some (strip field))
        | None => Raise IndexError
        end
      else scan_volume rest
  end.

Definition volume_text (r : result CompletedProcess) : str :=
  match r with
  | Ok p =>
      match scan_volume (splitlines (stdout p)) with
      | Ok (Some vol) => vol
      | _ => volume_unknown
      end
  | Raise _ => volume_unknown
  end.

(** The selection a tick ends with when the registry lists [first] at the
    head: lines 180-184 at the value of the global before the tick. *)
Definition resolved (current : option (str * str)) (force : bool)
  (first : str * str) : str * str :=
  match current with
  | Some p => if force then first else p
  | None => first
  end.

(** Line 193: the title as displayed. *)
Definition shown_title (title : str) : str :=
  firstn 50 title ++ (if (50 <? length title)%nat then ellipsis else []).

(** The character [sep] does not occur in [a]. *)
Definition free_of (sep : char) (a : str) : bool :=
  forallb (fun c => negb (c =? sep)%N) a.

(** The line does not carry the marker [get_volume] looks for. *)
Definition unmarked (line : str) : bool := negb (contains (lit "Volume:") line).

(** The one [pactl] invocation of [get_volume]. *)
Definition pactl : invocation := Shell get_volume_cmd.

(** A query only ever adds to the record of invocations, and never raises. *)
Definition io_only {A : Type} (m : M A) : Prop :=
  forall s, exists v h, m s = (Ok v, with_history h s).



(** ** The volume buttons and the selection handler (lines 143-149, 203-208) *)

Section Controls.

Variable PLAYERCTL : str.
Variable capitalize : str -> str.
Variable world : list invocation -> invocation -> result CompletedProcess.

(** The shell line of [set_volume]. *)
Definition set_volume_cmd (delta : str) : str :=
  lit "pactl set-sink-volume @DEFAULT_SINK@ " ++ delta.

(** No [try] here: what [subprocess.run] raises leaves the function. *)
Definition set_volume (delta : str) : M unit :=
  subprocess_run world (Shell (set_volume_cmd delta)) ;;
  ret tt.

Definition vol_up : M unit := set_volume (lit "+5%").
Definition vol_down : M unit := set_volume (lit "-5%").

(** The handler of the combobox; [idx] is what [player_combo.current()]
    returns when the event is delivered. *)
Definition on_player_select (idx : Z) : M unit :=
  s <- get ;;
  if ((idx >=? 0) && (idx <? Z.of_nat (length (player_list s))))%Z then
    picked <- getitem (player_list s) (Z.to_nat idx) ;;
    modify (with_selected_player (Some picked)) ;;
    update_info PLAYERCTL capitalize world true
  else ret tt.

End Controls.

(** A stripped line of the listing that [list_players] keeps. *)
Definition listed (line : str) : bool :=
  negb (negb (truthy line) || startswith (lit "No players found") line).

(** ** The start-up code (lines 9-67) *)

(** How the start-up code ends: the import of tkinter fails and its error
    is not caught, [sys.exit(status)], or the program goes on with the
    global [PLAYERCTL]. *)
Inductive startup_outcome : Type :=
  | ImportFails
  | Exits (status : Z)
  | Starts (playerctl : option str).

Section Startup.

(** [shutil.which] *)
Variable which : str -> option str.

(** Whether the import system finds a module that is not loaded yet. *)
Variable finder : str -> bool.

(** Whether [import tkinter as tk] and [from tkinter import ttk] succeed. *)
Variable import_tkinter : bool.

(** What [parser.parse_args()] does with the command line: [None] when the
    arguments parse; [Some (status, message)] when argparse prints its
    message and ends the program with [sys.exit(status)], as it does for
    [--help] and for an argument it does not know. *)
Variable parse_args : option (Z * list str).

(** [importlib.util.find_spec(name) is not None]: a loaded module has its
    spec in [sys.modules], any other module is searched for. *)
Definition find_spec (loaded : list str) (name : str) : bool :=
  existsb (str_eqb name) loaded || finder name.

Definition command_missing (cmd : str) : list str :=
  [lit "[!] O comando '" ++ cmd ++ lit "' n" ++ [227%N]
   ++ lit "o foi encontrado no sistema.";
   [arrow] ++ lit " Instale manualmente com: sudo apt install " ++ cmd].

Definition module_missing (module_name : str) : list str :=
  [lit "[!] M" ++ [243%N] ++ lit "dulo Python '" ++ module_name ++ lit "' ausente.";
   lit "Tente instalar com: sudo apt install python3-" ++ module_name].

Definition dependencies_missing : str :=
  [10%N] ++ lit "[" ++ [10007%N] ++ lit "] Depend" ++ [234%N]
  ++ lit "ncias ausentes. Corrija e execute novamente." ++ [10%N].

(** [shutil.which(cmd)] as a truth value: a path, and not the empty one. *)
Definition found (cmd : str) : bool :=
  match which cmd with
  | Some p => truthy p
  | None => false
  end.

(** The functions return their value and the lines they print. *)
Definition check_cmd (cmd : str) : bool * list str :=
  if is_set (which cmd) && truthy (match which cmd with Some p => p | None => [] end)
  then (true, [])
  else (false, command_missing cmd).

(** [loaded] is the content of [sys.modules] when the function is called. *)
Definition check_module (loaded : list str) (module_name : str) : bool * list str :=
  if negb (find_spec loaded module_name) then (false, module_missing module_name)
  else (true, []).

(** The module-level code from line 9 to line 67, with what it prints.  The
    imports run first: when tkinter cannot be imported the program ends
    there; after them tkinter is loaded.  Then the command line is parsed
    (lines 22-25), then the dependencies are checked (lines 57-64), where
    [ok &= ...] evaluates every check. *)
Definition startup : startup_outcome * list str :=
  if negb import_tkinter then (ImportFails, [])
  else
    let loaded := [lit "tkinter"] in
    match parse_args with
    | Some (status, message) => (Exits status, message)
    | None =>
        let ok := true in
        let (r1, out1) := check_cmd (lit "playerctl") in
        let ok := andb ok r1 in
        let (r2, out2) := check_cmd (lit "pactl") in
        let ok := andb ok r2 in
        let (r3, out3) := check_module loaded (lit "tkinter") in
        let ok := andb ok r3 in
        if negb ok
        then (Exits 1, out1 ++ out2 ++ out3 ++ [dependencies_missing])
        else (Starts (which (lit "playerctl")), out1 ++ out2 ++ out3)
    end.

End Startup.

(** The state after a first tick in the world [two_players], with the
    second entry just picked in the combobox. *)
Definition initial_state_listed : State :=
  mkState (Some spotify) [spotify; firefox] [snd spotify; snd firefox] (snd firefox)
    (lit "A Very Long Symphony Title That Goes On And On Pas...")
    (lit "Some Artist " ++ status_playing) (lit "45%") true [] [].

(** One player is listed; its title query succeeds and prints a blank line. *)
Definition blank_title (_ : list invocation) (inv : invocation)
  : result CompletedProcess :=
  match inv with
  | Shell _ => failed
  | Argv (_ :: args) =>
      if args_eqb args [lit "-l"] then completed ("vlc" ++ newline)
      else if args_eqb args [lit "-p"; lit "vlc"; lit "metadata"; lit "xesam:title"]
           then completed ("  " ++ newline)
      else failed
  | Argv [] => failed
  end.

(** [pactl] prints the usual output and exits with status 1. *)
Definition pactl_exits_1 (_ : list invocation) (inv : invocation)
  : result CompletedProcess :=
  match inv with
  | Shell _ => Ok (mkCompleted 1 pactl_output)
  | Argv _ => failed
  end.

(** A system without [pactl]. *)
Definition which_no_pactl (cmd : str) : option str :=
  if str_eqb cmd (lit "playerctl") then Some playerctl_path else None.

(** A system with both tools. *)
Definition which_all (cmd : str) : option str :=
  Some (lit "/usr/bin/" ++ cmd).

(** ** The queries of a tick, and when one of them gives nothing *)

Definition listing_query (PLAYERCTL : str) : invocation :=
  Argv (playerctl_cmd PLAYERCTL [lit "-l"] None).

Definition title_query (PLAYERCTL id : str) : invocation :=
  Argv (playerctl_cmd PLAYERCTL [lit "metadata"; lit "xesam:title"] (Some id)).

Definition artist_query (PLAYERCTL id : str) : invocation :=
  Argv (playerctl_cmd PLAYERCTL [lit "metadata"; lit "xesam:artist"] (Some id)).

Definition status_query (PLAYERCTL id : str) : invocation :=
  Argv (playerctl_cmd PLAYERCTL [lit "status"] (Some id)).

(** The media tool failed: the invocation raised, exited with a non-zero
    status, or printed nothing but whitespace. *)
Definition no_reply (r : result CompletedProcess) : Prop :=
  match r with
  | Raise _ => True
  | Ok p => returncode p <> 0%Z \/ forallb isspace (stdout p) = true
  end.

(** The status query failed: it raised, exited with a non-zero status, or
    printed something that is neither "Playing" nor "Paused". *)
Definition no_status (r : result CompletedProcess) : Prop :=
  match r with
  | Raise _ => True
  | Ok p => returncode p <> 0%Z
            \/ (strip (stdout p) <> lit "Playing" /\ strip (stdout p) <> lit "Paused")
  end.

(** The volume query failed: it raised, or its output is malformed: no line
    carries "Volume:", or the first that does has no "/". *)
Definition no_volume (r : result CompletedProcess) : Prop :=
  match r with
  | Raise _ => True
  | Ok p =>
      forallb unmarked (splitlines (stdout p)) = true
      \/ exists before line after,
           splitlines (stdout p) = before ++ line :: after
           /\ forallb unmarked before = true
           /\ unmarked line = false
           /\ free_of slash line = true
  end.

(** ** Facts about the string operations *)

Lemma str_eqb_eq (a b : str) : str_eqb a b = true <-> a = b.
Proof.
  revert b; induction a as [|x a IH]; intros [|y b]; simpl; split;
    try congruence; try reflexivity.
  - intros H. apply andb_true_iff in H as [Hx Hr].
    apply N.eqb_eq in Hx. apply IH in Hr. congruence.
  - intros H. injection H as -> ->. rewrite N.eqb_refl. simpl. now apply IH.
Qed.

Lemma str_eqb_neq (a b : str) : a <> b -> str_eqb a b = false.
Proof.
  intros H. destruct (str_eqb a b) eqn:E; [|reflexivity].
  apply str_eqb_eq in E. contradiction.
Qed.

Lemma lstrip_decompose (s : str) :
  exists pre, s = pre ++ lstrip s /\ forallb isspace pre = true.
Proof.
  induction s as [|c r (pre & E & Hpre)]; simpl.
  - exists []. split; reflexivity.
  - destruct (isspace c) eqn:Hc.
    + exists (c :: pre). simpl. rewrite Hc, Hpre. split; [congruence | reflexivity].
    + exists []. split; reflexivity.
Qed.

Lemma lstrip_head (s : str) (c : char) (r : str) :
  lstrip s = c :: r -> isspace c = false.
Proof.
  induction s as [|x s IH]; simpl; [discriminate|].
  destruct (isspace x) eqn:Hx; [exact IH|].
  intros H. injection H as <- _. exact Hx.
Qed.

Lemma forallb_rev {A : Type} (f : A -> bool) (l : list A) :
  forallb f (rev l) = forallb f l.
Proof.
  induction l as [|x l IH]; simpl; [reflexivity|].
  rewrite forallb_app, IH. simpl. rewrite andb_true_r. apply andb_comm.
Qed.

Lemma rstrip_decompose (s : str) :
  exists post, s = rstrip s ++ post /\ forallb isspace post = true.
Proof.
  unfold rstrip. destruct (lstrip_decompose (rev s)) as (pre & E & Hpre).
  exists (rev pre). split.
  - rewrite <- rev_app_distr, <- E. symmetry. apply rev_involutive.
  - now rewrite forallb_rev.
Qed.

Lemma rstrip_last (s r : str) (c : char) :
  rstrip s = r ++ [c] -> isspace c = false.
Proof.
  unfold rstrip. intros H.
  apply (f_equal (@rev char)) in H. rewrite rev_involutive, rev_app_distr in H.
  simpl in H. now apply lstrip_head in H.
Qed.

Lemma rstrip_head (s : str) (c : char) :
  isspace c = false -> rstrip (c :: s) = c :: rstrip s.
Proof.
  intros Hc. unfold rstrip. simpl.
  assert (G : forall t, lstrip (t ++ [c]) = lstrip t ++ [c]).
  { induction t as [|x t IH]; simpl; [now rewrite Hc|].
    destruct (isspace x); [exact IH | reflexivity]. }
  rewrite G, rev_app_distr. reflexivity.
Qed.

(** [strip] removes whitespace at both ends and nothing else. *)
Lemma strip_spec (s : str) :
  (exists pre post, s = pre ++ strip s ++ post
                    /\ forallb isspace pre = true /\ forallb isspace post = true)
  /\ (forall c r, strip s = c :: r -> isspace c = false)
  /\ (forall r c, strip s = r ++ [c] -> isspace c = false).
Proof.
  unfold strip. split; [|split].
  - destruct (lstrip_decompose s) as (pre & E & Hpre).
    destruct (rstrip_decompose (lstrip s)) as (post & E' & Hpost).
    exists pre, post. rewrite <- E'. auto.
  - intros c r H. destruct (lstrip s) as [|x t] eqn:E.
    + discriminate.
    + pose proof (lstrip_head _ _ _ E) as Hx.
      rewrite (rstrip_head t x Hx) in H. injection H as <- _. exact Hx.
  - intros r c. apply rstrip_last.
Qed.

Lemma lstrip_blank (s : str) : forallb isspace s = true -> lstrip s = [].
Proof.
  induction s as [|c r IH]; cbn [forallb lstrip]; [reflexivity|].
  intros H. apply andb_true_iff in H as [Hc Hr]. rewrite Hc. now apply IH.
Qed.

Lemma strip_blank (s : str) : forallb isspace s = true -> strip s = [].
Proof. intros H. unfold strip. now rewrite (lstrip_blank s H). Qed.

Lemma split_sep_from_nonempty (sep : char) (s cur : str) :
  exists x l, split_sep_from sep cur s = x :: l.
Proof.
  revert cur; induction s as [|c r IH]; intros cur; simpl.
  - eauto.
  - destruct (c =? sep)%N; eauto.
Qed.

Lemma split_sep_from_clean (sep : char) (a cur : str) :
  free_of sep a = true ->
  split_sep_from sep cur a = [rev cur ++ a].
Proof.
  revert cur; induction a as [|c a IH]; intros cur H; simpl.
  - now rewrite app_nil_r.
  - simpl in H. apply andb_true_iff in H as [Hc Ha].
    apply negb_true_iff in Hc. rewrite Hc, (IH _ Ha). simpl.
    now rewrite <- app_assoc.
Qed.

Lemma split_sep_from_app (sep : char) (a b cur : str) :
  free_of sep a = true ->
  split_sep_from sep cur (a ++ sep :: b) = (rev cur ++ a) :: split_sep_from sep [] b.
Proof.
  revert cur; induction a as [|c a IH]; intros cur H; simpl.
  - now rewrite N.eqb_refl, app_nil_r.
  - simpl in H. apply andb_true_iff in H as [Hc Ha].
    apply negb_true_iff in Hc. rewrite Hc, (IH _ Ha). simpl.
    now rewrite <- app_assoc.
Qed.

(** ** The queries: values, and what they change *)

Lemma with_history_same (s : State) : with_history (history s) s = s.
Proof. destruct s; reflexivity. Qed.

Section Properties.

Variable PLAYERCTL : str.
Variable capitalize : str -> str.
Variable world : list invocation -> invocation -> result CompletedProcess.

Lemma run_playerctl_eq (args : list str) (player : option str) (s : State) :
  run_playerctl PLAYERCTL world args player s
  = (Ok (reply_of (world (history s) (Argv (playerctl_cmd PLAYERCTL args player)))),
     with_history (Argv (playerctl_cmd PLAYERCTL args player) :: history s) s).
Proof.
  unfold run_playerctl, try_except, bind, subprocess_run, ret, reply_of.
  destruct (world (history s) (Argv (playerctl_cmd PLAYERCTL args player))) as [p|e]; reflexivity.
Qed.

Lemma get_friendly_name_eq (player_id : str) (s : State) :
  get_friendly_name PLAYERCTL capitalize world player_id s
  = (Ok (let app := capitalize (hd [] (split_sep dot player_id)) in
         match reply_of (world (history s)
                           (Argv (playerctl_cmd PLAYERCTL [lit "metadata"; lit "--format"; metadata_format]
                                         (Some player_id)))) with
         | Some ((_ :: _) as data) =>
             app ++ lit " " ++ [arrow] ++ lit " "
                 ++ firstn 60 data ++ (if (60 <? length data)%nat then ellipsis else [])
         | _ => app
         end),
     with_history (Argv (playerctl_cmd PLAYERCTL [lit "metadata"; lit "--format"; metadata_format]
                                (Some player_id)) :: history s) s).
Proof.
  unfold get_friendly_name, bind. rewrite run_playerctl_eq.
  unfold getitem, split_sep.
  destruct (split_sep_from_nonempty dot player_id []) as (x & l & E).
  rewrite E. cbn [nth_error hd ret].
  destruct (reply_of _) as [[|c d]|]; reflexivity.
Qed.

Lemma list_players_loop_io (lines : list str) (players : list (str * str)) :
  io_only (list_players_loop PLAYERCTL capitalize world lines players).
Proof.
  revert players; induction lines as [|line rest IH]; intros players s.
  - exists players, (history s). cbn. now rewrite with_history_same.
  - cbn [list_players_loop].
    destruct (negb (truthy (strip line)) || startswith (lit "No players found") (strip line)).
    + apply IH.
    + unfold bind. rewrite get_friendly_name_eq.
      match goal with |- context [list_players_loop _ _ _ rest ?p ?t] =>
        destruct (IH p t) as (L & h & E) end.
      rewrite E. exists L, h. reflexivity.
Qed.

Lemma list_players_io : io_only (list_players PLAYERCTL capitalize world).
Proof.
  intros s. unfold list_players, bind. rewrite run_playerctl_eq.
  destruct (reply_of _) as [[|c d]|].
  - eexists [], _. reflexivity.
  - match goal with |- context [list_players_loop _ _ _ ?l ?p ?t] =>
      destruct (list_players_loop_io l p t) as (L & h & E) end.
    rewrite E. exists L, h. reflexivity.
  - eexists [], _. reflexivity.
Qed.

Lemma get_player_status_eq (player : str) (s : State) :
  get_player_status PLAYERCTL world player s
  = (Ok (status_text (reply_of (world (history s)
                                  (Argv (playerctl_cmd PLAYERCTL [lit "status"] (Some player)))))),
     with_history (Argv (playerctl_cmd PLAYERCTL [lit "status"] (Some player)) :: history s) s).
Proof.
  unfold get_player_status, bind. rewrite run_playerctl_eq.
  unfold status_text. destruct (reply_of _) as [st|]; [|reflexivity].
  destruct (str_eqb st (lit "Playing")); [reflexivity|].
  destruct (str_eqb st (lit "Paused")); reflexivity.
Qed.

Lemma get_volume_loop_eq (lines : list str) (s : State) :
  get_volume_loop lines s = (scan_volume lines, s).
Proof.
  induction lines as [|line rest IH]; cbn [get_volume_loop scan_volume].
  - reflexivity.
  - destruct (contains (lit "Volume:") line); [|exact IH].
    unfold bind, getitem.
    destruct (nth_error (split_sep slash line) 1); reflexivity.
Qed.

Lemma get_volume_eq (s : State) :
  get_volume world s
  = (Ok (volume_text (world (history s) pactl)), with_history (pactl :: history s) s).
Proof.
  unfold get_volume, bind, try_except, subprocess_run, volume_text, pactl.
  destruct (world (history s) (Shell get_volume_cmd)) as [p|e]; [|reflexivity].
  rewrite get_volume_loop_eq.
  destruct (scan_volume (splitlines (stdout p))) as [[vol|]|e]; reflexivity.
Qed.

Lemma run_cmd_unselected (cmd : str) (s : State) :
  selected_player s = None -> run_cmd PLAYERCTL world cmd s = (Ok None, s).
Proof. intros H. unfold run_cmd, bind, get. now rewrite H. Qed.

Lemma run_cmd_selected (cmd : str) (s : State) (sp : str * str) :
  selected_player s = Some sp ->
  run_cmd PLAYERCTL world cmd s
  = run_playerctl PLAYERCTL world (split cmd) (Some (fst sp)) s.
Proof. intros H. unfold run_cmd, bind, get. now rewrite H. Qed.

Ltac step :=
  cbv beta iota zeta delta
    [bind ret modify get combo_set combo_current getitem winfo_exists root_after
     is_set negb andb
     selected_player player_list combo_values combo_text title_var status_var
     volume_var root_exists timers history
     with_selected_player with_player_list with_combo_values with_combo_text
     with_title_var with_status_var with_volume_var with_timers with_history
     map snd fst nth_error].

(** One tick, step by step: the registry is listed at the history [hL]; the
    selection is resolved; title, artist and status of the selected player
    are queried in this order, then the volume; the timer is re-armed. *)
Lemma update_info_run (force : bool) (s : State) :
  exists L hL,
    list_players PLAYERCTL capitalize world s = (Ok L, with_history hL s) /\
    update_info PLAYERCTL capitalize world force s
    = (Ok tt,
       let again := if root_exists s then timers s ++ [3000%N] else timers s in
       match L with
       | [] =>
           mkState None [] [] no_active_player no_player_selected select_a_player
             (volume_text (world hL pactl)) (root_exists s) again (pactl :: hL)
       | first :: _ =>
           let sp := resolved (selected_player s) force first in
           let text := match selected_player s with
                       | Some _ => if force then snd first else combo_text s
                       | None => snd first
                       end in
           let c1 := Argv (playerctl_cmd PLAYERCTL (split (lit "metadata xesam:title"))
                             (Some (fst sp))) in
           let c2 := Argv (playerctl_cmd PLAYERCTL (split (lit "metadata xesam:artist"))
                             (Some (fst sp))) in
           let c3 := Argv (playerctl_cmd PLAYERCTL [lit "status"] (Some (fst sp))) in
           let title := or_else (reply_of (world hL c1)) title_unavailable in
           let artist := or_else (reply_of (world (c1 :: hL) c2)) [] in
           let status := status_text (reply_of (world (c2 :: c1 :: hL) c3)) in
           mkState (Some sp) L (map snd L) text (shown_title title)
             (strip (artist ++ lit " " ++ status))
             (volume_text (world (c3 :: c2 :: c1 :: hL) pactl))
             (root_exists s) again (pactl :: c3 :: c2 :: c1 :: hL)
       end).
Proof.
  destruct (list_players_io s) as (L & hL & E).
  exists L, hL. split; [exact E|].
  unfold update_info. unfold bind at 1. rewrite E. clear E.
  destruct s as [sel pl cv ct tv sv vv alive tm hs].
  destruct L as [|first L'].
  - step. rewrite get_volume_eq. step. destruct alive; reflexivity.
  - unfold resolved.
    destruct sel as [p|]; [destruct force|]; step.
    all: erewrite run_cmd_selected by reflexivity.
    all: rewrite run_playerctl_eq; step.
    all: erewrite run_cmd_selected by reflexivity.
    all: rewrite run_playerctl_eq; step.
    all: rewrite get_player_status_eq; step.
    all: rewrite get_volume_eq; step.
    all: destruct alive; reflexivity.
Qed.

(** ** Selection (lines 177-184) *)

(** C1. Whenever the registry lists at least one player and either nothing
    is selected or the tick is forced, the tick selects the first listed
    player (index 0) and the combobox shows the first label. *)
Theorem update_info_selects_first (force : bool) (s : State)
    (first : str * str) (rest : list (str * str)) :
  fst (list_players PLAYERCTL capitalize world s) = Ok (first :: rest) ->
  selected_player s = None \/ force = true ->
  exists s',
    update_info PLAYERCTL capitalize world force s = (Ok tt, s')
    /\ player_list s' = first :: rest
    /\ selected_player s' = nth_error (player_list s') 0
    /\ selected_player s' = Some first
    /\ combo_values s' = map snd (first :: rest)
    /\ nth_error (combo_values s') 0 = Some (combo_text s')
    /\ combo_text s' = snd first.
Proof.
  intros HL Hsel.
  destruct (update_info_run force s) as (L & hL & E & Run).
  rewrite E in HL. cbn in HL. injection HL as ->.
  eexists. split; [exact Run|].
  assert (R : resolved (selected_player s) force first = first).
  { unfold resolved. destruct Hsel as [-> | ->]; [reflexivity|].
    destruct (selected_player s); reflexivity. }
  cbn. rewrite R. repeat split.
  all: destruct Hsel as [-> | ->]; try reflexivity.
  all: destruct (selected_player s); reflexivity.
Qed.

(** C2. Whenever the registry lists no player, the tick clears the selection
    and shows the no-player placeholders, whatever was selected before and
    whether or not the tick is forced. *)
Theorem update_info_no_players (force : bool) (s : State) :
  fst (list_players PLAYERCTL capitalize world s) = Ok [] ->
  exists s',
    update_info PLAYERCTL capitalize world force s = (Ok tt, s')
    /\ selected_player s' = None
    /\ player_list s' = []
    /\ combo_values s' = []
    /\ combo_text s' = no_active_player
    /\ title_var s' = no_player_selected
    /\ status_var s' = select_a_player.
Proof.
  intros HL.
  destruct (update_info_run force s) as (L & hL & E & Run).
  rewrite E in HL. cbn in HL. injection HL as ->.
  eexists. split; [exact Run|]. cbn. repeat split.
Qed.

(** C3. Whenever the registry lists at least one player, a selection is
    present and the tick is not forced, the tick keeps the selection as it
    is (and leaves the text shown by the combobox alone); the selected
    player is not looked up in the new list. *)
Theorem update_info_keeps_selection (s : State) (p first : str * str)
    (rest : list (str * str)) :
  fst (list_players PLAYERCTL capitalize world s) = Ok (first :: rest) ->
  selected_player s = Some p ->
  exists s',
    update_info PLAYERCTL capitalize world false s = (Ok tt, s')
    /\ selected_player s' = selected_player s
    /\ selected_player s' = Some p
    /\ combo_text s' = combo_text s.
Proof.
  intros HL Hsel.
  destruct (update_info_run false s) as (L & hL & E & Run).
  rewrite E in HL. cbn in HL. injection HL as ->.
  eexists. split; [exact Run|]. cbn. rewrite Hsel. cbn. repeat split.
Qed.

(** ** The command runner and the formatters *)

(** C4. The command runner never raises.  It returns nothing when the tool
    exits with a non-zero status or the invocation raises; otherwise it
    returns the standard output with the whitespace at both ends removed
    (and nothing else removed).  Its only effect is the invocation. *)
Theorem run_playerctl_result (args : list str) (player : option str) (s : State) :
  let inv := Argv (playerctl_cmd PLAYERCTL args player) in
  fst (run_playerctl PLAYERCTL world args player s)
  = Ok match world (history s) inv with
       | Raise _ => None
       | Ok p => if (returncode p =? 0)%Z then Some (strip (stdout p)) else None
       end
  /\ snd (run_playerctl PLAYERCTL world args player s)
     = with_history (inv :: history s) s
  /\ (forall out : str,
        (exists pre post, out = pre ++ strip out ++ post
                          /\ forallb isspace pre = true
                          /\ forallb isspace post = true)
        /\ match strip out with [] => True | c :: _ => isspace c = false end
        /\ match rev (strip out) with [] => True | c :: _ => isspace c = false end).
Proof.
  cbv zeta. rewrite run_playerctl_eq. cbn [fst snd]. split; [|split].
  - unfold reply_of. destruct (world _ _); reflexivity.
  - reflexivity.
  - intros out. destruct (strip_spec out) as (D & Hhead & Hlast).
    split; [exact D|]. split.
    + destruct (strip out) as [|c r] eqn:E; [exact I|]. now apply (Hhead c r).
    + destruct (rev (strip out)) as [|c r] eqn:E; [exact I|].
      apply (Hlast (rev r) c).
      rewrite <- (rev_involutive (strip out)), E. reflexivity.
Qed.

(** C7. The status formatter maps a raw status "Playing" to the playing
    glyph string, "Paused" to the paused one, and everything else, an absent
    status included, to the stopped one. *)
Theorem get_player_status_mapping (player : str) (s : State) (raw : option str) :
  fst (run_playerctl PLAYERCTL world [lit "status"] (Some player) s) = Ok raw ->
  (raw = Some (lit "Playing") ->
   fst (get_player_status PLAYERCTL world player s) = Ok status_playing)
  /\ (raw = Some (lit "Paused") ->
      fst (get_player_status PLAYERCTL world player s) = Ok status_paused)
  /\ (raw <> Some (lit "Playing") -> raw <> Some (lit "Paused") ->
      fst (get_player_status PLAYERCTL world player s) = Ok status_stopped).
Proof.
  intros H. rewrite run_playerctl_eq in H. rewrite get_player_status_eq.
  unfold fst in *.
  match type of H with Ok ?a = Ok raw => replace a with raw by congruence end.
  clear H. repeat split.
  - intros ->. reflexivity.
  - intros ->. reflexivity.
  - intros H1 H2. destruct raw as [st|]; [|reflexivity]. unfold status_text.
    rewrite (str_eqb_neq st (lit "Playing")) by congruence.
    rewrite (str_eqb_neq st (lit "Paused")) by congruence.
    reflexivity.
Qed.

(** C10. With no player selected, a transport operation returns nothing,
    starts no external process and leaves the whole state as it is. *)
Theorem transport_without_selection (s : State) :
  selected_player s = None ->
  (forall cmd, run_cmd PLAYERCTL world cmd s = (Ok None, s))
  /\ play_pause PLAYERCTL world s = (Ok tt, s)
  /\ next_track PLAYERCTL world s = (Ok tt, s)
  /\ prev_track PLAYERCTL world s = (Ok tt, s)
  /\ seek_forward PLAYERCTL world s = (Ok tt, s)
  /\ seek_backward PLAYERCTL world s = (Ok tt, s).
Proof.
  intros H.
  unfold play_pause, next_track, prev_track, seek_forward, seek_backward, bind.
  rewrite !(fun cmd => run_cmd_unselected cmd s H).
  repeat split. intros cmd. now apply run_cmd_unselected.
Qed.

Lemma scan_volume_skip (before rest : list str) :
  forallb unmarked before = true ->
  scan_volume (before ++ rest) = scan_volume rest.
Proof.
  induction before as [|l before IH]; cbn [app scan_volume forallb]; [reflexivity|].
  intros H. apply andb_true_iff in H as [Hl Hb].
  unfold unmarked in Hl. apply negb_true_iff in Hl. rewrite Hl. now apply IH.
Qed.

Lemma split_two_slashes (pre mid rest : str) :
  free_of slash pre = true -> free_of slash mid = true ->
  nth_error (split_sep slash (pre ++ slash :: mid ++ slash :: rest)) 1 = Some mid.
Proof.
  intros Hp Hm. unfold split_sep.
  rewrite (split_sep_from_app _ _ _ _ Hp), (split_sep_from_app _ _ _ _ Hm).
  reflexivity.
Qed.

Lemma split_one_slash (pre mid : str) :
  free_of slash pre = true -> free_of slash mid = true ->
  nth_error (split_sep slash (pre ++ slash :: mid)) 1 = Some mid.
Proof.
  intros Hp Hm. unfold split_sep.
  rewrite (split_sep_from_app _ _ _ _ Hp), (split_sep_from_clean _ _ _ Hm).
  reflexivity.
Qed.

(** C6. The volume formatter finds the first line carrying "Volume:" and
    returns what stands between its first and its second "/" (or the end of
    the line, when there is one "/" only) with the whitespace at both ends
    removed: "45%" on the usual output.  With no such line, and whenever the
    invocation or the parse raises (a marked line without any "/"), it
    returns "--%".  It never raises. *)
Theorem get_volume_result (s : State) :
  (forall p before line after pre mid rest,
      world (history s) pactl = Ok p ->
      splitlines (stdout p) = before ++ line :: after ->
      forallb unmarked before = true ->
      contains (lit "Volume:") line = true ->
      line = pre ++ slash :: mid ++ slash :: rest ->
      free_of slash pre = true -> free_of slash mid = true ->
      fst (get_volume world s) = Ok (strip mid))
  /\ (forall p before line after pre mid,
      world (history s) pactl = Ok p ->
      splitlines (stdout p) = before ++ line :: after ->
      forallb unmarked before = true ->
      contains (lit "Volume:") line = true ->
      line = pre ++ slash :: mid ->
      free_of slash pre = true -> free_of slash mid = true ->
      fst (get_volume world s) = Ok (strip mid))
  /\ (forall rc,
      world (history s) pactl = Ok (mkCompleted rc pactl_output) ->
      fst (get_volume world s) = Ok (lit "45%"))
  /\ (forall p,
      world (history s) pactl = Ok p ->
      forallb unmarked (splitlines (stdout p)) = true ->
      fst (get_volume world s) = Ok volume_unknown)
  /\ (forall e,
      world (history s) pactl = Raise e ->
      fst (get_volume world s) = Ok volume_unknown)
  /\ (forall p before line after,
      world (history s) pactl = Ok p ->
      splitlines (stdout p) = before ++ line :: after ->
      forallb unmarked before = true ->
      contains (lit "Volume:") line = true ->
      free_of slash line = true ->
      fst (get_volume world s) = Ok volume_unknown)
  /\ exists vol, fst (get_volume world s) = Ok vol.
Proof.
  rewrite get_volume_eq. cbn [fst]. unfold volume_text. repeat split.
  - intros p before line after pre mid rest -> -> Hb Hl -> Hp Hm.
    rewrite (scan_volume_skip _ _ Hb). cbn [scan_volume]. rewrite Hl.
    now rewrite (split_two_slashes _ _ _ Hp Hm).
  - intros p before line after pre mid -> -> Hb Hl -> Hp Hm.
    rewrite (scan_volume_skip _ _ Hb). cbn [scan_volume]. rewrite Hl.
    now rewrite (split_one_slash _ _ Hp Hm).
  - intros rc ->. reflexivity.
  - intros p -> Hall.
    rewrite <- (app_nil_r (splitlines (stdout p))), (scan_volume_skip _ _ Hall).
    reflexivity.
  - intros e ->. reflexivity.
  - intros p before line after -> -> Hb Hl Hfree.
    rewrite (scan_volume_skip _ _ Hb). cbn [scan_volume]. rewrite Hl.
    unfold split_sep. now rewrite (split_sep_from_clean _ _ _ Hfree).
  - eexists. reflexivity.
Qed.

(** ** Truncation (lines 109 and 193) *)

Lemma shown_title_long (title : str) :
  50 < length title ->
  shown_title title = firstn 50 title ++ lit "..." /\ length (shown_title title) = 53.
Proof.
  intros H. unfold shown_title.
  apply Nat.ltb_lt in H as Hb. rewrite Hb. split; [reflexivity|].
  rewrite length_app, length_firstn. cbn [ellipsis lit length]. lia.
Qed.

Lemma shown_title_short (title : str) :
  length title <= 50 -> shown_title title = title.
Proof.
  intros H. unfold shown_title.
  apply Nat.ltb_ge in H as Hb. rewrite Hb, app_nil_r. now apply firstn_all2.
Qed.

Lemma history_listed (s : State) (sp : str * str) (L : list (str * str))
    (hL : list invocation) :
  list_players PLAYERCTL capitalize world s = (Ok L, with_history hL s) ->
  history (with_selected_player (Some sp)
             (snd (list_players PLAYERCTL capitalize world s))) = hL.
Proof. intros ->. reflexivity. Qed.

(** The raw title a tick works with: what the title query returns when it
    is asked right after the registry listing, with [sp] selected. *)
Lemma title_query_eq (s : State) (sp : str * str) (L : list (str * str))
    (hL : list invocation) :
  list_players PLAYERCTL capitalize world s = (Ok L, with_history hL s) ->
  fst (run_cmd PLAYERCTL world (lit "metadata xesam:title")
         (with_selected_player (Some sp)
            (snd (list_players PLAYERCTL capitalize world s))))
  = Ok (reply_of (world hL (Argv (playerctl_cmd PLAYERCTL
                                    (split (lit "metadata xesam:title"))
                                    (Some (fst sp)))))).
Proof.
  intros E. erewrite run_cmd_selected by reflexivity.
  rewrite run_playerctl_eq. unfold fst at 1.
  now rewrite (history_listed s sp L hL E).
Qed.

(** C5. A title of more than 50 characters is displayed as its first 50
    characters followed by the three characters "..."; a title of at most
    50 characters is displayed as it is.  A metadata snippet of more than 60
    characters enters the registry label as its first 60 characters
    followed by "...", a shorter one as it is. *)
Theorem truncation_rules :
  (forall (force : bool) (s : State) (sp : str * str) (raw : option str),
      fst (run_cmd PLAYERCTL world (lit "metadata xesam:title")
             (with_selected_player (Some sp)
                (snd (list_players PLAYERCTL capitalize world s)))) = Ok raw ->
      exists s',
        update_info PLAYERCTL capitalize world force s = (Ok tt, s')
        /\ (selected_player s' = Some sp ->
            let title := or_else raw title_unavailable in
            (50 < length title ->
             title_var s' = firstn 50 title ++ lit "..."
             /\ length (title_var s') = 53)
            /\ (length title <= 50 -> title_var s' = title)))
  /\ (forall (player_id : str) (s : State) (data : str),
      fst (run_playerctl PLAYERCTL world
             [lit "metadata"; lit "--format"; metadata_format] (Some player_id) s)
      = Ok (Some data) ->
      data <> [] ->
      exists snippet,
        fst (get_friendly_name PLAYERCTL capitalize world player_id s)
        = Ok (capitalize (hd [] (split_sep dot player_id))
              ++ lit " " ++ [arrow] ++ lit " " ++ snippet)
        /\ (60 < length data ->
            snippet = firstn 60 data ++ lit "..." /\ length snippet = 63)
        /\ (length data <= 60 -> snippet = data)).
Proof.
  split.
  - intros force s sp raw Hraw.
    destruct (update_info_run force s) as (L & hL & E & Run).
    rewrite (title_query_eq s sp L hL E) in Hraw.
    eexists. split; [exact Run|].
    destruct L as [|first L'].
    + cbn [selected_player]. discriminate.
    + cbv zeta. cbn [selected_player title_var]. intros Hsp.
      assert (Hsp' : resolved (selected_player s) force first = sp) by congruence.
      rewrite Hsp'.
      match type of Hraw with Ok ?a = Ok raw => replace a with raw by congruence end.
      split; [apply shown_title_long | apply shown_title_short].
  - intros player_id s data Hdata Hne.
    rewrite run_playerctl_eq in Hdata. rewrite get_friendly_name_eq.
    unfold fst in *. cbv zeta.
    match type of Hdata with Ok ?a = Ok _ => replace a with (Some data) by congruence end.
    destruct data as [|c d]; [contradiction|].
    eexists. split; [reflexivity|]. split.
    + intros H. apply Nat.ltb_lt in H as Hb. rewrite Hb. split; [reflexivity|].
      rewrite length_app, length_firstn. cbn [ellipsis lit length] in *. lia.
    + intros H. apply Nat.ltb_ge in H as Hb. rewrite Hb, app_nil_r.
      now apply firstn_all2.
Qed.

(** ** Failures (lines 82-87, 154-163, 186-200) *)

Lemma no_reply_cases (r : result CompletedProcess) :
  no_reply r -> reply_of r = None \/ reply_of r = Some [].
Proof.
  destruct r as [p|e]; cbn [no_reply reply_of]; [|now left].
  intros [H|H].
  - apply Z.eqb_neq in H. rewrite H. now left.
  - destruct (returncode p =? 0)%Z; [right | now left].
    now rewrite (strip_blank _ H).
Qed.

Lemma no_reply_or_else (r : result CompletedProcess) (default : str) :
  no_reply r -> or_else (reply_of r) default = default.
Proof. intros H. destruct (no_reply_cases r H) as [-> | ->]; reflexivity. Qed.

Lemma no_status_text (r : result CompletedProcess) :
  no_status r -> status_text (reply_of r) = status_stopped.
Proof.
  destruct r as [p|e]; cbn [no_status reply_of]; [|reflexivity].
  intros [H|[H1 H2]].
  - apply Z.eqb_neq in H. rewrite H. reflexivity.
  - destruct (returncode p =? 0)%Z; [|reflexivity]. unfold status_text.
    now rewrite (str_eqb_neq _ _ H1), (str_eqb_neq _ _ H2).
Qed.

Lemma no_volume_text (r : result CompletedProcess) :
  no_volume r -> volume_text r = volume_unknown.
Proof.
  destruct r as [p|e]; cbn [no_volume volume_text]; [|reflexivity].
  intros [Hall | (before & line & after & -> & Hb & Hl & Hfree)].
  - rewrite <- (app_nil_r (splitlines (stdout p))), (scan_volume_skip _ _ Hall).
    reflexivity.
  - rewrite (scan_volume_skip _ _ Hb). cbn [scan_volume].
    unfold unmarked in Hl. apply negb_false_iff in Hl. rewrite Hl.
    unfold split_sep. now rewrite (split_sep_from_clean _ _ _ Hfree).
Qed.

Lemma status_text_cases (raw : option str) :
  status_text raw = status_playing
  \/ status_text raw = status_paused
  \/ status_text raw = status_stopped.
Proof.
  unfold status_text. destruct raw as [st|]; [|now right; right].
  destruct (str_eqb st (lit "Playing")); [now left|].
  destruct (str_eqb st (lit "Paused")); [now right; left | now right; right].
Qed.

(** A status text with a space in front of it, stripped, is the text. *)
Lemma strip_bare_status (raw : option str) :
  strip ([] ++ lit " " ++ status_text raw) = status_text raw.
Proof.
  destruct (status_text_cases raw) as [-> | [-> | ->]]; vm_compute; reflexivity.
Qed.

Lemma list_players_unavailable (s : State) :
  no_reply (world (history s) (listing_query PLAYERCTL)) ->
  fst (list_players PLAYERCTL capitalize world s) = Ok [].
Proof.
  intros H. unfold list_players, bind. rewrite run_playerctl_eq.
  fold (listing_query PLAYERCTL).
  destruct (no_reply_cases _ H) as [-> | ->]; reflexivity.
Qed.

(** C9, as the code has it.  A tick never raises, whatever the tools do, and
    re-arms its timer of 3000 ms (the window existing).  Each of its own
    queries that fails degrades to a placeholder.  For the media tool a
    query fails when it raises, exits with a non-zero status or prints
    malformed output: a failed listing shows the no-player placeholders, a
    failed title query the placeholder title (not an empty one), a failed
    artist query the bare status text, a failed status query the stopped
    text.  The volume query fails when it raises or prints malformed
    output, and then shows "--%"; its exit status is not looked at. *)
Theorem update_info_degrades (force : bool) (s : State) :
  exists s',
    update_info PLAYERCTL capitalize world force s = (Ok tt, s')
    /\ (root_exists s = true -> timers s' = timers s ++ [3000%N])
    /\ (no_reply (world (history s) (listing_query PLAYERCTL)) ->
        selected_player s' = None
        /\ player_list s' = []
        /\ combo_text s' = no_active_player
        /\ title_var s' = no_player_selected
        /\ status_var s' = select_a_player)
    /\ (forall sp,
        selected_player s' = Some sp ->
        exists asked,
          history s'
          = pactl :: status_query PLAYERCTL (fst sp)
                  :: artist_query PLAYERCTL (fst sp)
                  :: title_query PLAYERCTL (fst sp) :: asked
          /\ (no_reply (world asked (title_query PLAYERCTL (fst sp))) ->
              title_var s' = title_unavailable)
          /\ (no_reply (world (title_query PLAYERCTL (fst sp) :: asked)
                          (artist_query PLAYERCTL (fst sp))) ->
              status_var s' = status_playing
              \/ status_var s' = status_paused
              \/ status_var s' = status_stopped)
          /\ (no_status (world (artist_query PLAYERCTL (fst sp)
                                 :: title_query PLAYERCTL (fst sp) :: asked)
                           (status_query PLAYERCTL (fst sp))) ->
              exists artist,
                status_var s' = strip (artist ++ lit " " ++ status_stopped)))
    /\ (exists asked,
          history s' = pactl :: asked
          /\ (no_volume (world asked pactl) -> volume_var s' = volume_unknown)).
Proof.
  destruct (update_info_run force s) as (L & hL & E & Run).
  eexists. split; [exact Run|].
  split; [|split; [|split]].
  - intros Halive. destruct L; cbv zeta; cbn [timers]; now rewrite Halive.
  - intros Hfail. apply list_players_unavailable in Hfail.
    rewrite E in Hfail. unfold fst in Hfail.
    assert (L = []) as -> by congruence.
    repeat split.
  - intros sp Hsp.
    destruct L as [|first L'].
    + cbn [selected_player] in Hsp. discriminate.
    + cbv zeta in Hsp |- *.
      cbn [selected_player title_var status_var history] in Hsp |- *.
      assert (Hsp' : resolved (selected_player s) force first = sp) by congruence.
      rewrite Hsp'. exists hL. split; [reflexivity|]. split; [|split].
      * intros Hn.
        pose proof (no_reply_or_else _ title_unavailable Hn) as Ht.
        transitivity (shown_title title_unavailable);
          [exact (f_equal shown_title Ht) | vm_compute; reflexivity].
      * intros Hn.
        pose proof (no_reply_or_else _ [] Hn) as Ha.
        match goal with |- context [status_text ?r] =>
          pose proof (strip_bare_status r) as Hb;
          destruct (status_text_cases r) as [Hc | [Hc | Hc]]
        end.
        all: rewrite Hc in Hb.
        1: left. 2: right; left. 3: right; right.
        all: etransitivity; [|exact Hb].
        all: rewrite Hc.
        all: exact (f_equal (fun a => strip (a ++ lit " " ++ _)) Ha).
      * intros Hn. eexists.
        exact (f_equal (fun t => strip (_ ++ lit " " ++ t)) (no_status_text _ Hn)).
  - destruct L as [|first L']; cbv zeta; cbn [history volume_var].
    + eexists. split; [reflexivity|]. apply no_volume_text.
    + eexists. split; [reflexivity|]. apply no_volume_text.
Qed.

(** ** Two ticks in a row *)






End Properties.

(** ** The registry (lines 90-111) *)

Section Coverage.

Variable PLAYERCTL : str.
Variable capitalize : str -> str.
Variable world : list invocation -> invocation -> result CompletedProcess.

Lemma split_sep_head (sep : char) (a b : str) :
  free_of sep a = true -> hd [] (split_sep sep (a ++ sep :: b)) = a.
Proof.
  intros H. unfold split_sep. now rewrite (split_sep_from_app _ _ _ _ H).
Qed.

Lemma split_sep_whole (sep : char) (a : str) :
  free_of sep a = true -> hd [] (split_sep sep a) = a.
Proof.
  intros H. unfold split_sep. now rewrite (split_sep_from_clean _ _ _ H).
Qed.

(** The loop of the registry: the identifiers it adds are the kept lines, in
    order, and it starts one process for each. *)
Lemma list_players_loop_ids (lines : list str) (players : list (str * str))
    (s : State) :
  exists L h,
    list_players_loop PLAYERCTL capitalize world lines players s
    = (Ok L, with_history (h ++ history s) s)
    /\ map fst L = map fst players ++ filter listed (map strip lines)
    /\ length h = length (filter listed (map strip lines)).
Proof.
  revert players s; induction lines as [|line rest IH]; intros players s.
  - exists players, []. cbn [app]. rewrite with_history_same.
    cbn [map filter length]. rewrite app_nil_r. repeat split.
  - cbn [list_players_loop map filter].
    assert (Hc : negb (truthy (strip line))
                 || startswith (lit "No players found") (strip line)
                 = negb (listed (strip line)))
      by (unfold listed; now rewrite negb_involutive).
    rewrite Hc. destruct (listed (strip line)); cbn [negb].
    2: apply IH.
    + unfold bind. rewrite get_friendly_name_eq.
      match goal with |- context [list_players_loop _ _ _ rest ?p ?t] =>
        destruct (IH p t) as (L & h & E & Hids & Hlen) end.
      rewrite E. cbn [history with_history] in *.
      exists L. eexists (h ++ [_]). split; [|split].
      * rewrite <- app_assoc. reflexivity.
      * rewrite Hids, map_app, <- app_assoc. reflexivity.
      * rewrite length_app, Hlen. cbn [length]. lia.
Qed.

(** X1. The registry keeps the order of the tool's listing: the identifiers
    it returns are the lines of the listing, each stripped, without the
    empty ones and those starting with "No players found", duplicates
    included; none of them is empty.  A failed or blank listing gives the
    empty registry. *)
Theorem list_players_ids (s : State) :
  exists L,
    fst (list_players PLAYERCTL capitalize world s) = Ok L
    /\ map fst L
       = match fst (run_playerctl PLAYERCTL world [lit "-l"] None s) with
         | Ok (Some listing) => filter listed (map strip (splitlines listing))
         | _ => []
         end
    /\ Forall (fun id => id <> []) (map fst L).
Proof.
  unfold list_players, bind. rewrite run_playerctl_eq. cbn [fst].
  destruct (reply_of _) as [[|c d]|].
  - exists []. repeat split. constructor.
  - match goal with |- context [list_players_loop _ _ _ ?l ?p ?t] =>
      destruct (list_players_loop_ids l p t) as (L & h & E & Hids & _) end.
    rewrite E. exists L. cbn [fst map app] in *. split; [reflexivity|].
    split; [exact Hids|]. rewrite Hids.
    apply Forall_forall. intros id Hin. apply filter_In in Hin as [_ Hk].
    intros ->. discriminate.
  - exists []. repeat split. constructor.
Qed.

(** X2. Listing the players never raises, whatever the tools do, changes
    nothing but the record of started processes, and starts exactly one
    process for the listing and one more for each player it returns. *)
Theorem list_players_cost (s : State) :
  exists L started,
    list_players PLAYERCTL capitalize world s
    = (Ok L, with_history (started ++ history s) s)
    /\ length started = 1 + length L.
Proof.
  unfold list_players, bind. rewrite run_playerctl_eq.
  destruct (reply_of _) as [[|c d]|].
  - exists [], [Argv (playerctl_cmd PLAYERCTL [lit "-l"] None)]. split; reflexivity.
  - match goal with |- context [list_players_loop _ _ _ ?l ?p ?t] =>
      destruct (list_players_loop_ids l p t) as (L & h & E & Hids & Hlen) end.
    rewrite E. cbn [history with_history map app] in *.
    exists L. eexists (h ++ [_]). split.
    + rewrite <- app_assoc. reflexivity.
    + rewrite length_app, Hlen, <- Hids, length_map. cbn [length]. lia.
  - exists [], [Argv (playerctl_cmd PLAYERCTL [lit "-l"] None)]. split; reflexivity.
Qed.

(** X3. The label of a player starts with the capitalised part of its
    identifier before the first "." (the whole identifier when it has no
    "."); when the metadata query fails or prints nothing but whitespace,
    that application name is the whole label. *)
Theorem get_friendly_name_app (player_id : str) (s : State) :
  let data := fst (run_playerctl PLAYERCTL world
                     [lit "metadata"; lit "--format"; metadata_format]
                     (Some player_id) s) in
  (forall a b,
      player_id = a ++ dot :: b -> free_of dot a = true ->
      exists rest,
        fst (get_friendly_name PLAYERCTL capitalize world player_id s)
        = Ok (capitalize a ++ rest)
        /\ (data = Ok None \/ data = Ok (Some []) -> rest = []))
  /\ (free_of dot player_id = true ->
      exists rest,
        fst (get_friendly_name PLAYERCTL capitalize world player_id s)
        = Ok (capitalize player_id ++ rest)
        /\ (data = Ok None \/ data = Ok (Some []) -> rest = [])).
Proof.
  cbv zeta. rewrite run_playerctl_eq, get_friendly_name_eq. unfold fst. cbv zeta.
  assert (G : forall app (r : option str),
             exists rest,
               Ok match r with
                  | Some ((_ :: _) as data) =>
                      app ++ lit " " ++ [arrow] ++ lit " "
                          ++ firstn 60 data
                          ++ (if (60 <? length data)%nat then ellipsis else [])
                  | _ => app
                  end = Ok (app ++ rest)
               /\ (Ok r = Ok None \/ Ok r = Ok (Some []) -> rest = [])).
  { intros app [[|c d]|].
    - exists []. now rewrite app_nil_r.
    - eexists. split; [reflexivity|]. intros [H|H]; discriminate.
    - exists []. now rewrite app_nil_r. }
  split.
  - intros a b -> Ha. rewrite (split_sep_head _ _ _ Ha). apply G.
  - intros Ha. rewrite (split_sep_whole _ _ Ha). apply G.
Qed.

(** ** What every tick leaves behind (lines 170-200) *)

Lemma shown_title_bound (title : str) : length (shown_title title) <= 53.
Proof.
  unfold shown_title. rewrite length_app, length_firstn.
  destruct (50 <? length title)%nat; cbn [ellipsis lit length]; lia.
Qed.

(** X4. After every tick the values of the combobox are the labels of the
    player list, in order, and a player is selected exactly when the list is
    not empty. *)
Theorem update_info_in_sync (force : bool) (s : State) :
  exists s',
    update_info PLAYERCTL capitalize world force s = (Ok tt, s')
    /\ combo_values s' = map snd (player_list s')
    /\ (selected_player s' = None <-> player_list s' = []).
Proof.
  destruct (update_info_run PLAYERCTL capitalize world force s)
    as (L & hL & _ & Run).
  eexists. split; [exact Run|].
  destruct L as [|first L']; cbv zeta; cbn [combo_values player_list selected_player].
  - repeat split.
  - split; [reflexivity|]. split; discriminate.
Qed.

(** X5. After every tick the title shown has at most 53 characters. *)
Theorem update_info_title_bound (force : bool) (s : State) :
  exists s',
    update_info PLAYERCTL capitalize world force s = (Ok tt, s')
    /\ length (title_var s') <= 53.
Proof.
  destruct (update_info_run PLAYERCTL capitalize world force s)
    as (L & hL & _ & Run).
  eexists. split; [exact Run|].
  destruct L as [|first L']; cbv zeta; cbn [title_var].
  - vm_compute. lia.
  - apply shown_title_bound.
Qed.

(** X6. A tick starts one process for the listing, one for each listed
    player, three more (title, artist, status) when a player is selected,
    and always ends with the volume query, selected player or not. *)
Theorem update_info_cost (force : bool) (s : State) :
  exists s' started,
    update_info PLAYERCTL capitalize world force s = (Ok tt, s')
    /\ history s' = pactl :: started ++ history s
    /\ length started
       = 1 + length (player_list s')
         + match selected_player s' with Some _ => 3 | None => 0 end.
Proof.
  destruct (update_info_run PLAYERCTL capitalize world force s)
    as (L & hL & E & Run).
  destruct (list_players_cost s) as (L' & started & E' & Hlen).
  rewrite E in E'.
  assert (HL : L = L') by congruence.
  assert (Hh : hL = started ++ history s).
  { assert (Hs : with_history hL s = with_history (started ++ history s) s)
      by congruence.
    apply (f_equal history) in Hs. exact Hs. }
  subst L' hL.
  destruct L as [|first L'].
  - eexists. exists started. split; [exact Run|].
    cbv zeta. cbn [history player_list selected_player]. split; [reflexivity|].
    rewrite Hlen. cbn [length]. lia.
  - eexists. eexists (_ :: _ :: _ :: started). split; [exact Run|].
    cbv zeta. cbn [history player_list selected_player]. split; [reflexivity|].
    cbn [length] in *. lia.
Qed.

(** X7. A title query that succeeds but prints nothing, or whitespace only,
    is treated like a failed one: the tick shows the placeholder title. *)
Theorem update_info_blank_title (force : bool) (s : State) (sp : str * str)
    (out : str) :
  world (history (snd (list_players PLAYERCTL capitalize world s)))
    (Argv (playerctl_cmd PLAYERCTL (split (lit "metadata xesam:title"))
             (Some (fst sp))))
  = Ok (mkCompleted 0 out) ->
  forallb isspace out = true ->
  exists s',
    update_info PLAYERCTL capitalize world force s = (Ok tt, s')
    /\ (selected_player s' = Some sp -> title_var s' = title_unavailable).
Proof.
  intros Hw Hblank.
  destruct (update_info_run PLAYERCTL capitalize world force s)
    as (L & hL & E & Run).
  rewrite E in Hw. cbn [snd history with_history] in Hw.
  eexists. split; [exact Run|].
  destruct L as [|first L']; cbv zeta; cbn [selected_player title_var].
  - discriminate.
  - intros Hsp.
    assert (Hsp' : resolved (selected_player s) force first = sp) by congruence.
    rewrite Hsp', Hw. unfold reply_of. cbn [returncode stdout Z.eqb].
    rewrite (strip_blank out Hblank). reflexivity.
Qed.

(** X8. When this tick's artist query for the selected player fails
    (raises, exits with a non-zero status or prints nothing), the status
    line is exactly the status text of this tick's status query, one of the
    three texts, with no space in front of it. *)
Theorem update_info_without_artist (force : bool) (s : State) :
  exists s',
    update_info PLAYERCTL capitalize world force s = (Ok tt, s')
    /\ forall sp,
        selected_player s' = Some sp ->
        exists asked,
          history s'
          = pactl :: status_query PLAYERCTL (fst sp)
                  :: artist_query PLAYERCTL (fst sp)
                  :: title_query PLAYERCTL (fst sp) :: asked
          /\ (no_reply (world (title_query PLAYERCTL (fst sp) :: asked)
                          (artist_query PLAYERCTL (fst sp))) ->
              Ok (status_var s')
              = fst (get_player_status PLAYERCTL world (fst sp)
                       (with_history (artist_query PLAYERCTL (fst sp)
                                      :: title_query PLAYERCTL (fst sp) :: asked) s'))
              /\ (status_var s' = status_playing
                  \/ status_var s' = status_paused
                  \/ status_var s' = status_stopped)).
Proof.
  destruct (update_info_run PLAYERCTL capitalize world force s)
    as (L & hL & E & Run).
  eexists. split; [exact Run|].
  intros sp Hsp.
  destruct L as [|first L'].
  - cbn [selected_player] in Hsp. discriminate.
  - cbv zeta in Hsp |- *.
    cbn [selected_player status_var history] in Hsp |- *.
    assert (Hsp' : resolved (selected_player s) force first = sp) by congruence.
    rewrite Hsp'. exists hL. split; [reflexivity|].
    intros Hn. rewrite get_player_status_eq. cbn [fst history with_history].
    pose proof (no_reply_or_else _ [] Hn) as Ha.
    match goal with |- context [status_text ?r] =>
      pose proof (strip_bare_status r) as Hb;
      assert (Hs : strip (or_else
                            (reply_of (world (title_query PLAYERCTL (fst sp) :: hL)
                                         (artist_query PLAYERCTL (fst sp)))) []
                          ++ lit " " ++ status_text r)
                   = status_text r)
        by (rewrite Ha; exact Hb);
      pose proof (status_text_cases r) as Hc
    end.
    split.
    + f_equal. exact Hs.
    + destruct Hc as [Hc | [Hc | Hc]]; [left | right; left | right; right];
        (etransitivity; [exact Hs | exact Hc]).
Qed.

(** ** The buttons (lines 124-149) *)

(** X9. With a player selected, each transport button starts exactly one
    process, [playerctl -p <id>] followed by the words of its command,
    never raises whatever the tool does, and changes neither the selection
    nor anything shown. *)
Theorem transport_with_selection (s : State) (id name : str) :
  selected_player s = Some (id, name) ->
  id <> [] ->
  let ran (words : list str) :=
    (Ok tt, with_history (Argv (PLAYERCTL :: lit "-p" :: id :: words) :: history s) s) in
  play_pause PLAYERCTL world s = ran [lit "play-pause"]
  /\ next_track PLAYERCTL world s = ran [lit "next"]
  /\ prev_track PLAYERCTL world s = ran [lit "previous"]
  /\ seek_forward PLAYERCTL world s = ran [lit "position"; lit "10+"]
  /\ seek_backward PLAYERCTL world s = ran [lit "position"; lit "10-"].
Proof.
  intros Hsel Hid. cbv zeta.
  unfold play_pause, next_track, prev_track, seek_forward, seek_backward, bind.
  rewrite !(fun cmd => run_cmd_selected PLAYERCTL world cmd s (id, name) Hsel).
  rewrite !run_playerctl_eq. unfold playerctl_cmd. cbn [fst].
  destruct id as [|c r]; [contradiction|]. cbn [truthy].
  repeat split.
Qed.

(** X10. A volume button starts exactly one process, the shell line
    [pactl set-sink-volume @DEFAULT_SINK@] with the step, ignores its exit
    status, and leaves the selection and everything shown as it is, the
    volume text included.  What the invocation raises is not caught. *)
Theorem set_volume_effect (delta : str) (s : State) :
  let inv := Shell (lit "pactl set-sink-volume @DEFAULT_SINK@ " ++ delta) in
  set_volume world delta s
  = (match world (history s) inv with
     | Ok _ => Ok tt
     | Raise e => Raise e
     end,
     with_history (inv :: history s) s)
  /\ vol_up world = set_volume world (lit "+5%")
  /\ vol_down world = set_volume world (lit "-5%")
  /\ display (snd (set_volume world delta s)) = display s
  /\ selected_player (snd (set_volume world delta s)) = selected_player s.
Proof.
  cbv zeta. unfold set_volume, bind, subprocess_run, set_volume_cmd, ret.
  destruct (world (history s) _) as [p|e]; repeat split.
Qed.

(** ** The selection handler (lines 203-208) *)

Lemma list_players_loop_same (lines : list str) (players : list (str * str))
    (s t : State) :
  history s = history t ->
  exists L h,
    list_players_loop PLAYERCTL capitalize world lines players s
    = (Ok L, with_history h s)
    /\ list_players_loop PLAYERCTL capitalize world lines players t
       = (Ok L, with_history h t).
Proof.
  revert players s t; induction lines as [|line rest IH]; intros players s t H.
  - exists players, (history s). cbn [list_players_loop]. unfold ret.
    rewrite with_history_same, H, with_history_same. split; reflexivity.
  - cbn [list_players_loop].
    destruct (negb (truthy (strip line))
              || startswith (lit "No players found") (strip line)).
    + now apply IH.
    + unfold bind. rewrite !get_friendly_name_eq, <- H.
      match goal with
      | |- context [list_players_loop _ _ _ rest ?p (with_history ?h s)] =>
          destruct (IH p (with_history h s) (with_history h t) eq_refl)
            as (L & h' & Es & Et)
      end.
      rewrite Es, Et. exists L, h'. split; reflexivity.
Qed.

Lemma list_players_same (s t : State) :
  history s = history t ->
  exists L h,
    list_players PLAYERCTL capitalize world s = (Ok L, with_history h s)
    /\ list_players PLAYERCTL capitalize world t = (Ok L, with_history h t).
Proof.
  intros H. unfold list_players, bind. rewrite !run_playerctl_eq, <- H.
  destruct (reply_of _) as [[|c d]|].
  - eexists [], _. split; reflexivity.
  - match goal with
    | |- context [list_players_loop _ _ _ ?l ?p (with_history ?h s)] =>
        destruct (list_players_loop_same l p (with_history h s) (with_history h t)
                    eq_refl) as (L & h' & Es & Et)
    end.
    rewrite Es, Et. exists L, h'. split; reflexivity.
  - eexists [], _. split; reflexivity.
Qed.

(** A forced tick does not look at the selection it starts from. *)
Lemma update_info_forced_reselects (s : State) (picked : option (str * str)) :
  update_info PLAYERCTL capitalize world true (with_selected_player picked s)
  = update_info PLAYERCTL capitalize world true s.
Proof.
  destruct (update_info_run PLAYERCTL capitalize world true s)
    as (L & hL & E & Run).
  destruct (update_info_run PLAYERCTL capitalize world true
              (with_selected_player picked s))
    as (L' & hL' & E' & Run').
  destruct (list_players_same s (with_selected_player picked s) eq_refl)
    as (L0 & h0 & E0 & E0').
  rewrite E0 in E. rewrite E0' in E'.
  assert (L = L0) as -> by congruence.
  assert (L' = L0) as -> by congruence.
  assert (hL = h0) as ->.
  { assert (Hs : with_history h0 s = with_history hL s) by congruence.
    apply (f_equal history) in Hs. now cbn in Hs. }
  assert (hL' = h0) as ->.
  { assert (Hs : with_history h0 (with_selected_player picked s)
                 = with_history hL' (with_selected_player picked s)) by congruence.
    apply (f_equal history) in Hs. now cbn in Hs. }
  rewrite Run, Run'. f_equal.
  destruct L0 as [|first L0']; cbv zeta;
    cbn [selected_player root_exists timers combo_text with_selected_player].
  - reflexivity.
  - unfold resolved. destruct picked, (selected_player s); reflexivity.
Qed.

Lemma picked_in_range (s : State) (idx : Z) :
  (0 <= idx < Z.of_nat (length (player_list s)))%Z ->
  exists picked, nth_error (player_list s) (Z.to_nat idx) = Some picked.
Proof.
  intros H. destruct (nth_error (player_list s) (Z.to_nat idx)) as [p|] eqn:E.
  - eauto.
  - apply nth_error_None in E. lia.
Qed.

(** X11. A selection event whose index is outside the player list (the
    combobox reports -1 when its text is not among its values) does
    nothing: no process is started and the state is unchanged. *)
Theorem on_player_select_out_of_range (idx : Z) (s : State) :
  (idx < 0 \/ Z.of_nat (length (player_list s)) <= idx)%Z ->
  on_player_select PLAYERCTL capitalize world idx s = (Ok tt, s).
Proof.
  intros H. unfold on_player_select, bind, get.
  replace ((idx >=? 0)%Z && (idx <? Z.of_nat (length (player_list s)))%Z)
    with false; [reflexivity|].
  symmetry. apply andb_false_iff.
  destruct H; [left; lia | right; lia].
Qed.

Lemma on_player_select_as_tick (idx : Z) (s : State) :
  (0 <= idx < Z.of_nat (length (player_list s)))%Z ->
  on_player_select PLAYERCTL capitalize world idx s
  = update_info PLAYERCTL capitalize world true s.
Proof.
  intros H. unfold on_player_select. unfold bind at 1. unfold get.
  replace ((idx >=? 0)%Z && (idx <? Z.of_nat (length (player_list s)))%Z)
    with true by (symmetry; apply andb_true_iff; lia).
  destruct (picked_in_range s idx H) as (picked & Hp).
  unfold bind at 1. unfold getitem. rewrite Hp. unfold ret at 1.
  unfold bind, modify. apply update_info_forced_reselects.
Qed.

(** X12. A selection event with an index inside the player list acts
    exactly like a forced tick: the player picked is overwritten, and the
    handler ends with the first player of the fresh listing selected (or
    none, when the listing is empty), whatever the index was. *)
Theorem on_player_select_reselects_first (idx : Z) (s : State) :
  (0 <= idx < Z.of_nat (length (player_list s)))%Z ->
  on_player_select PLAYERCTL capitalize world idx s
  = update_info PLAYERCTL capitalize world true s
  /\ exists s',
      on_player_select PLAYERCTL capitalize world idx s = (Ok tt, s')
      /\ selected_player s' = nth_error (player_list s') 0
      /\ combo_text s'
         = match player_list s' with
           | first :: _ => snd first
           | [] => no_active_player
           end.
Proof.
  intros H. pose proof (on_player_select_as_tick idx s H) as Heq.
  split; [exact Heq|]. rewrite Heq.
  destruct (update_info_run PLAYERCTL capitalize world true s)
    as (L & hL & _ & Run).
  eexists. split; [exact Run|].
  destruct L as [|first L']; cbv zeta;
    cbn [selected_player player_list combo_text nth_error].
  - split; reflexivity.
  - unfold resolved. destruct (selected_player s); split; reflexivity.
Qed.

(** X13. Every handled selection event arms one more refresh timer and
    cancels none: the pending timers grow by one. *)
Theorem on_player_select_adds_timer (idx : Z) (s : State) :
  (0 <= idx < Z.of_nat (length (player_list s)))%Z ->
  root_exists s = true ->
  exists s',
    on_player_select PLAYERCTL capitalize world idx s = (Ok tt, s')
    /\ timers s' = timers s ++ [3000%N]
    /\ length (timers s') = S (length (timers s)).
Proof.
  intros H Halive.
  rewrite (on_player_select_as_tick idx s H).
  destruct (update_info_run PLAYERCTL capitalize world true s)
    as (L & hL & _ & Run).
  eexists. split; [exact Run|].
  destruct L; cbv zeta; cbn [timers]; rewrite Halive, length_app;
    cbn [length]; split; [reflexivity | lia | reflexivity | lia].
Qed.

(** X16. The volume formatter does not look at the exit status of the
    audio tool: two runs that print the same text give the same volume. *)
Theorem get_volume_ignores_status
    (world' : list invocation -> invocation -> result CompletedProcess)
    (s s' : State) (rc rc' : Z) (out : str) :
  world (history s) pactl = Ok (mkCompleted rc out) ->
  world' (history s') pactl = Ok (mkCompleted rc' out) ->
  fst (get_volume world s) = fst (get_volume world' s').
Proof.
  intros H H'. rewrite !get_volume_eq, H, H'. reflexivity.
Qed.

(** X17. The title, artist and status queries of a tick, in this order,
    go to the player that is selected when the tick ends, kept or newly
    chosen, listed or not; the volume query follows them. *)
Theorem update_info_queries_selected (force : bool) (s : State) :
  exists s' before,
    update_info PLAYERCTL capitalize world force s = (Ok tt, s')
    /\ forall sp,
        selected_player s' = Some sp ->
        history s'
        = pactl
          :: Argv (playerctl_cmd PLAYERCTL [lit "status"] (Some (fst sp)))
          :: Argv (playerctl_cmd PLAYERCTL [lit "metadata"; lit "xesam:artist"]
                     (Some (fst sp)))
          :: Argv (playerctl_cmd PLAYERCTL [lit "metadata"; lit "xesam:title"]
                     (Some (fst sp)))
          :: before.
Proof.
  destruct (update_info_run PLAYERCTL capitalize world force s)
    as (L & hL & _ & Run).
  eexists. exists hL. split; [exact Run|].
  destruct L as [|first L']; cbv zeta; cbn [selected_player history].
  - discriminate.
  - intros sp Hsp.
    assert (Hsp' : resolved (selected_player s) force first = sp) by congruence.
    rewrite Hsp'. reflexivity.
Qed.

End Coverage.

(** ** The start-up code (lines 9-67) *)

Section StartupProperties.

Variable which : str -> option str.
Variable finder : str -> bool.

Lemma startup_report_eq :
  startup which finder true None
  = (if found which (lit "playerctl") && found which (lit "pactl")
     then Starts (which (lit "playerctl")) else Exits 1,
     (if found which (lit "playerctl") then [] else command_missing (lit "playerctl"))
     ++ (if found which (lit "pactl") then [] else command_missing (lit "pactl"))
     ++ (if found which (lit "playerctl") && found which (lit "pactl")
         then [] else [dependencies_missing])).
Proof.
  unfold startup, check_cmd, check_module, find_spec, found, is_set.
  cbn [negb existsb]. rewrite (proj2 (str_eqb_eq _ _) eq_refl). cbn [orb negb].
  destruct (which (lit "playerctl")) as [[|c1 p1]|];
    destruct (which (lit "pactl")) as [[|c2 p2]|]; reflexivity.
Qed.

(** X14. When tkinter cannot be imported the program ends at its import,
    before any check and with nothing printed.  When it can and the
    command line parses, the tkinter check always passes, whatever the
    search for modules would give, and both tool checks run whatever the
    first one gave: two lines for each missing tool, in the order
    playerctl, pactl, and exit status 1 after one closing line exactly when
    a tool is missing. *)
Theorem startup_report (import_tkinter : bool)
    (parse_args : option (Z * list str)) :
  (import_tkinter = false ->
   startup which finder import_tkinter parse_args = (ImportFails, []))
  /\ (import_tkinter = true -> parse_args = None ->
      let ok := found which (lit "playerctl") && found which (lit "pactl") in
      startup which finder import_tkinter parse_args
      = (if ok then Starts (which (lit "playerctl")) else Exits 1,
         (if found which (lit "playerctl") then []
          else command_missing (lit "playerctl"))
         ++ (if found which (lit "pactl") then [] else command_missing (lit "pactl"))
         ++ (if ok then [] else [dependencies_missing]))).
Proof.
  split; [intros -> | intros -> ->]; [reflexivity|]. cbv zeta.
  exact startup_report_eq.
Qed.

(** X15. When the start-up code lets the program go on, nothing was
    printed and the global [PLAYERCTL] holds a path that is not empty. *)
Theorem startup_sets_playerctl (import_tkinter : bool)
    (parse_args : option (Z * list str)) (playerctl : option str)
    (printed : list str) :
  startup which finder import_tkinter parse_args = (Starts playerctl, printed) ->
  printed = []
  /\ exists path, playerctl = Some path /\ path <> []
                  /\ which (lit "playerctl") = Some path.
Proof.
  destruct import_tkinter; [|discriminate].
  destruct parse_args as [[status message]|]; [discriminate|].
  rewrite startup_report_eq. cbv zeta. unfold found.
  destruct (which (lit "playerctl")) as [[|c1 p1]|];
    destruct (which (lit "pactl")) as [[|c2 p2]|];
    cbn [truthy andb app]; intros H; try discriminate.
  injection H as <- <-. split; [reflexivity|].
  eexists. split; [reflexivity|]. split; [discriminate | reflexivity].
Qed.

End StartupProperties.

(** ** The program on concrete worlds *)

(** The end-to-end scenario: two players are listed, nothing is selected
    yet, and the first tick picks the first of them. *)
Example scenario_first_tick :
  let s1 := snd (update_info playerctl_path ascii_capitalize two_players false
                   initial_state) in
  player_list s1 = [spotify; firefox]
  /\ selected_player s1 = Some spotify
  /\ combo_text s1 = snd spotify
  /\ title_var s1 = lit "A Very Long Symphony Title That Goes On And On Pas..."
  /\ status_var s1 = lit "Some Artist " ++ status_playing
  /\ volume_var s1 = lit "45%"
  /\ timers s1 = [3000%N].
Proof. vm_compute. repeat split. Qed.

(** A selection that is no longer first in the list survives a tick. *)
Example scenario_selection_survives :
  selected_player
    (snd (update_info playerctl_path ascii_capitalize two_players false
            firefox_selected))
  = Some firefox.
Proof. vm_compute. reflexivity. Qed.


Lemma update_info_selects_first_witness :
  fst (list_players playerctl_path ascii_capitalize two_players initial_state)
  = Ok [spotify; firefox]
  /\ selected_player initial_state = None
  /\ exists s',
      update_info playerctl_path ascii_capitalize two_players false initial_state
      = (Ok tt, s')
      /\ selected_player s' = Some spotify
      /\ combo_text s' = snd spotify.
Proof.
  assert (HL : fst (list_players playerctl_path ascii_capitalize two_players
                      initial_state) = Ok [spotify; firefox])
    by (vm_compute; reflexivity).
  split; [exact HL|]. split; [reflexivity|].
  destruct (update_info_selects_first playerctl_path ascii_capitalize two_players
              false initial_state spotify [firefox] HL (or_introl eq_refl))
    as (s' & R & _ & _ & Hsel & _ & _ & Htext).
  exists s'. repeat split; assumption.
Defined.

Lemma update_info_no_players_witness :
  fst (list_players playerctl_path ascii_capitalize no_players firefox_selected)
  = Ok []
  /\ exists s',
      update_info playerctl_path ascii_capitalize no_players false firefox_selected
      = (Ok tt, s')
      /\ selected_player s' = None
      /\ combo_text s' = no_active_player
      /\ title_var s' = no_player_selected
      /\ status_var s' = select_a_player.
Proof.
  assert (HL : fst (list_players playerctl_path ascii_capitalize no_players
                      firefox_selected) = Ok [])
    by (vm_compute; reflexivity).
  split; [exact HL|].
  destruct (update_info_no_players playerctl_path ascii_capitalize no_players
              false firefox_selected HL)
    as (s' & R & Hsel & _ & _ & Htext & Htitle & Hstatus).
  exists s'. repeat split; assumption.
Defined.

Lemma update_info_keeps_selection_witness :
  fst (list_players playerctl_path ascii_capitalize two_players firefox_selected)
  = Ok [spotify; firefox]
  /\ selected_player firefox_selected = Some firefox
  /\ exists s',
      update_info playerctl_path ascii_capitalize two_players false firefox_selected
      = (Ok tt, s')
      /\ selected_player s' = Some firefox.
Proof.
  assert (HL : fst (list_players playerctl_path ascii_capitalize two_players
                      firefox_selected) = Ok [spotify; firefox])
    by (vm_compute; reflexivity).
  split; [exact HL|]. split; [reflexivity|].
  destruct (update_info_keeps_selection playerctl_path ascii_capitalize two_players
              firefox_selected firefox spotify [firefox] HL eq_refl)
    as (s' & R & _ & Hsel & _).
  exists s'. split; assumption.
Defined.

Lemma get_player_status_mapping_witness :
  fst (run_playerctl playerctl_path two_players [lit "status"]
         (Some (lit "spotify.instance1")) initial_state)
  = Ok (Some (lit "Playing"))
  /\ fst (get_player_status playerctl_path two_players (lit "spotify.instance1")
            initial_state)
     = Ok status_playing.
Proof.
  assert (Hraw : fst (run_playerctl playerctl_path two_players [lit "status"]
                        (Some (lit "spotify.instance1")) initial_state)
                 = Ok (Some (lit "Playing")))
    by (vm_compute; reflexivity).
  split; [exact Hraw|].
  exact (proj1 (get_player_status_mapping playerctl_path two_players
                  (lit "spotify.instance1") initial_state _ Hraw) eq_refl).
Defined.

Lemma transport_without_selection_witness :
  selected_player initial_state = None
  /\ play_pause playerctl_path two_players initial_state = (Ok tt, initial_state)
  /\ run_cmd playerctl_path two_players (lit "position 10+") initial_state
     = (Ok None, initial_state).
Proof.
  destruct (transport_without_selection playerctl_path two_players initial_state
              eq_refl) as (Hcmd & Hplay & _).
  split; [reflexivity|]. split; [exact Hplay | apply Hcmd].
Defined.

Lemma get_volume_result_witness :
  two_players (history initial_state) pactl = Ok (mkCompleted 0 pactl_output)
  /\ fst (get_volume two_players initial_state) = Ok (lit "45%").
Proof.
  split; [reflexivity|].
  change (lit "45%") with (strip volume_line_field).
  apply (proj1 (get_volume_result two_players initial_state)
           (mkCompleted 0 pactl_output) []
           (volume_line_head ++ slash :: volume_line_field ++ slash :: volume_line_tail)
           [lit "        balance 0.00"]
           volume_line_head volume_line_field volume_line_tail).
  - reflexivity.
  - vm_compute. reflexivity.
  - reflexivity.
  - vm_compute. reflexivity.
  - reflexivity.
  - vm_compute. reflexivity.
  - vm_compute. reflexivity.
Defined.

Lemma truncation_rules_witness :
  (exists s',
      update_info playerctl_path ascii_capitalize two_players false initial_state
      = (Ok tt, s')
      /\ title_var s' = firstn 50 (lit long_title) ++ lit "...")
  /\ fst (get_friendly_name playerctl_path ascii_capitalize two_players
            (lit "spotify.instance1") initial_state)
     = Ok (snd spotify).
Proof.
  destruct (truncation_rules playerctl_path ascii_capitalize two_players)
    as (Htitle & Hlabel).
  split.
  - destruct (Htitle false initial_state spotify (Some (lit long_title)))
      as (s' & R & T).
    { vm_compute. reflexivity. }
    exists s'. split; [exact R|].
    assert (Hsel : selected_player s' = Some spotify).
    { assert (E : snd (update_info playerctl_path ascii_capitalize two_players false
                         initial_state) = s') by (rewrite R; reflexivity).
      rewrite <- E. vm_compute. reflexivity. }
    destruct (T Hsel) as (Tlong & _).
    apply Tlong. vm_compute. lia.
  - destruct (Hlabel (lit "spotify.instance1") initial_state
                (lit ("Some Artist - " ++ long_title)))
      as (snippet & E & Slong & _).
    { vm_compute. reflexivity. }
    { discriminate. }
    rewrite E. destruct Slong as (-> & _).
    { vm_compute. lia. }
    vm_compute. reflexivity.
Defined.


Lemma update_info_degrades_witness :
  root_exists initial_state = true
  /\ (exists s',
        update_info playerctl_path ascii_capitalize queries_fail false initial_state
        = (Ok tt, s')
        /\ timers s' = [3000%N]
        /\ selected_player s' = Some vlc
        /\ title_var s' = title_unavailable
        /\ status_var s' = status_stopped
        /\ volume_var s' = volume_unknown)
  /\ (exists t',
        update_info playerctl_path ascii_capitalize pactl_exits_1 false
          firefox_selected
        = (Ok tt, t')
        /\ selected_player t' = None
        /\ title_var t' = no_player_selected).
Proof.
  split; [reflexivity|]. split.
  2: { destruct (update_info_degrades playerctl_path ascii_capitalize pactl_exits_1
                   false firefox_selected)
         as (t' & R & _ & Hlisting & _).
       destruct Hlisting as (Hsel & _ & _ & Htitle & _); [left; discriminate|].
       exists t'. split; [exact R|]. split; assumption. }
  destruct (update_info_degrades playerctl_path ascii_capitalize queries_fail
              false initial_state)
    as (s' & R & Htimer & _ & Hplayer & Hvolume).
  assert (Hsel : selected_player s' = Some vlc).
  { assert (E : snd (update_info playerctl_path ascii_capitalize queries_fail false
                       initial_state) = s') by (rewrite R; reflexivity).
    rewrite <- E. vm_compute. reflexivity. }
  destruct (Hplayer vlc Hsel) as (asked & _ & Htitle & _ & Hstatus).
  destruct Hvolume as (asked' & _ & Hvol).
  exists s'. split; [exact R|]. split; [|split; [exact Hsel|split; [|split]]].
  - apply Htimer. reflexivity.
  - apply Htitle. left. discriminate.
  - destruct Hstatus as (artist & Hst); [left; discriminate|].
    assert (E : snd (update_info playerctl_path ascii_capitalize queries_fail false
                       initial_state) = s') by (rewrite R; reflexivity).
    rewrite <- E. vm_compute. reflexivity.
  - apply Hvol. left. reflexivity.
Defined.

(** Two things the tick does not do.  A failed title query does not give
    an empty title: with [vlc] selected and its title query exiting with
    status 1, the tick shows the placeholder title.  A non-zero exit of the
    audio tool does not give "--%": the output of [pactl] is parsed all the
    same, and the tick shows "45%". *)
Lemma failed_title_is_not_empty :
  let s' := snd (update_info playerctl_path ascii_capitalize queries_fail false
                   initial_state) in
  let t' := snd (update_info playerctl_path ascii_capitalize pactl_exits_1 false
                   initial_state) in
  (update_info playerctl_path ascii_capitalize queries_fail false initial_state
   = (Ok tt, s')
   /\ selected_player s' = Some vlc
   /\ queries_fail (history (snd (list_players playerctl_path ascii_capitalize
                                    queries_fail initial_state)))
        (Argv [playerctl_path; lit "-p"; lit "vlc"; lit "metadata"; lit "xesam:title"])
      = Ok (mkCompleted 1 [])
   /\ fst (run_cmd playerctl_path queries_fail (lit "metadata xesam:title")
             (with_selected_player (Some vlc)
                (snd (list_players playerctl_path ascii_capitalize queries_fail
                        initial_state))))
      = Ok None
   /\ title_var s' = title_unavailable
   /\ title_var s' <> [])
  /\ (update_info playerctl_path ascii_capitalize pactl_exits_1 false initial_state
      = (Ok tt, t')
      /\ history t' = [pactl; listing_query playerctl_path]
      /\ pactl_exits_1 [listing_query playerctl_path] pactl
         = Ok (mkCompleted 1 pactl_output)
      /\ volume_var t' = lit "45%"
      /\ volume_var t' <> volume_unknown).
Proof.
  cbv zeta. split.
  - split; [vm_compute; reflexivity|].
    split; [vm_compute; reflexivity|].
    split; [vm_compute; reflexivity|].
    split; [vm_compute; reflexivity|].
    split; [vm_compute; reflexivity|].
    vm_compute. discriminate.
  - split; [vm_compute; reflexivity|].
    split; [vm_compute; reflexivity|].
    split; [vm_compute; reflexivity|].
    split; [vm_compute; reflexivity|].
    vm_compute. discriminate.
Qed.

(** ** The further properties on concrete worlds *)

Lemma get_friendly_name_app_witness :
  fst (get_friendly_name playerctl_path ascii_capitalize queries_fail
         (lit "spotify.instance1") initial_state)
  = Ok (lit "Spotify").
Proof.
  destruct (proj1 (get_friendly_name_app playerctl_path ascii_capitalize queries_fail
                     (lit "spotify.instance1") initial_state)
              (lit "spotify") (lit "instance1") eq_refl eq_refl)
    as (rest & E & Hrest).
  rewrite E, (Hrest (or_introl eq_refl)). reflexivity.
Defined.

Lemma update_info_in_sync_witness :
  exists s',
    update_info playerctl_path ascii_capitalize two_players false initial_state
    = (Ok tt, s')
    /\ combo_values s' = map snd (player_list s')
    /\ (player_list s' = [] -> selected_player s' = None).
Proof.
  destruct (update_info_in_sync playerctl_path ascii_capitalize two_players false
              initial_state) as (s' & R & Hsync & Hsel).
  exists s'. split; [exact R|]. split; [exact Hsync | apply Hsel].
Defined.

Lemma update_info_blank_title_witness :
  exists s',
    update_info playerctl_path ascii_capitalize blank_title false initial_state
    = (Ok tt, s')
    /\ selected_player s' = Some vlc
    /\ title_var s' = title_unavailable.
Proof.
  destruct (update_info_blank_title playerctl_path ascii_capitalize blank_title
              false initial_state vlc (lit "  " ++ [10%N]))
    as (s' & R & T).
  { vm_compute. reflexivity. }
  { reflexivity. }
  assert (Hsel : selected_player s' = Some vlc).
  { assert (E : snd (update_info playerctl_path ascii_capitalize blank_title false
                       initial_state) = s') by (rewrite R; reflexivity).
    rewrite <- E. vm_compute. reflexivity. }
  exists s'. split; [exact R|]. split; [exact Hsel | exact (T Hsel)].
Defined.

Lemma update_info_without_artist_witness :
  exists s',
    update_info playerctl_path ascii_capitalize queries_fail false initial_state
    = (Ok tt, s')
    /\ selected_player s' = Some vlc
    /\ (status_var s' = status_playing
        \/ status_var s' = status_paused
        \/ status_var s' = status_stopped).
Proof.
  destruct (update_info_without_artist playerctl_path ascii_capitalize queries_fail
              false initial_state)
    as (s' & R & T).
  assert (Hsel : selected_player s' = Some vlc).
  { assert (E : snd (update_info playerctl_path ascii_capitalize queries_fail false
                       initial_state) = s') by (rewrite R; reflexivity).
    rewrite <- E. vm_compute. reflexivity. }
  destruct (T vlc Hsel) as (asked & _ & Hbare).
  exists s'. split; [exact R|]. split; [exact Hsel|].
  apply Hbare. left. discriminate.
Defined.

Lemma transport_with_selection_witness :
  selected_player firefox_selected = Some firefox
  /\ seek_forward playerctl_path two_players firefox_selected
     = (Ok tt,
        with_history
          [Argv [playerctl_path; lit "-p"; lit "firefox.instance2";
                 lit "position"; lit "10+"]]
          firefox_selected).
Proof.
  split; [reflexivity|].
  destruct (transport_with_selection playerctl_path two_players firefox_selected
              (lit "firefox.instance2") (lit "Firefox") eq_refl)
    as (_ & _ & _ & Hseek & _).
  { discriminate. }
  exact Hseek.
Defined.

Lemma on_player_select_out_of_range_witness :
  on_player_select playerctl_path ascii_capitalize two_players (-1) firefox_selected
  = (Ok tt, firefox_selected).
Proof.
  apply (on_player_select_out_of_range playerctl_path ascii_capitalize two_players
           (-1)%Z firefox_selected).
  left. reflexivity.
Defined.

(** The user picks the second entry, [firefox]; the handler ends with the
    first one, [spotify], selected. *)
Lemma on_player_select_reselects_first_witness :
  nth_error (player_list initial_state_listed) 1 = Some firefox
  /\ exists s',
      on_player_select playerctl_path ascii_capitalize two_players 1
        initial_state_listed
      = (Ok tt, s')
      /\ selected_player s' = Some spotify.
Proof.
  split; [reflexivity|].
  destruct (on_player_select_reselects_first playerctl_path ascii_capitalize
              two_players 1%Z initial_state_listed)
    as (_ & s' & R & Hsel & _).
  { vm_compute. split; [discriminate | reflexivity]. }
  exists s'. split; [exact R|]. rewrite Hsel.
  assert (E : snd (on_player_select playerctl_path ascii_capitalize two_players 1
                     initial_state_listed) = s') by (rewrite R; reflexivity).
  rewrite <- E. vm_compute. reflexivity.
Defined.

Lemma on_player_select_adds_timer_witness :
  exists s',
    on_player_select playerctl_path ascii_capitalize two_players 1
      initial_state_listed
    = (Ok tt, s')
    /\ timers s' = timers initial_state_listed ++ [3000%N].
Proof.
  destruct (on_player_select_adds_timer playerctl_path ascii_capitalize
              two_players 1%Z initial_state_listed)
    as (s' & R & Ht & _).
  { vm_compute. split; [discriminate | reflexivity]. }
  { reflexivity. }
  exists s'. split; assumption.
Defined.

Lemma get_volume_ignores_status_witness :
  fst (get_volume pactl_exits_1 initial_state) = Ok (lit "45%").
Proof.
  rewrite <- (get_volume_ignores_status two_players pactl_exits_1
                initial_state initial_state 0 1 pactl_output eq_refl eq_refl).
  vm_compute. reflexivity.
Defined.

Lemma update_info_queries_selected_witness :
  exists s' before,
    update_info playerctl_path ascii_capitalize two_players false firefox_selected
    = (Ok tt, s')
    /\ selected_player s' = Some firefox
    /\ history s'
       = pactl
         :: Argv [playerctl_path; lit "-p"; lit "firefox.instance2"; lit "status"]
         :: Argv [playerctl_path; lit "-p"; lit "firefox.instance2";
                  lit "metadata"; lit "xesam:artist"]
         :: Argv [playerctl_path; lit "-p"; lit "firefox.instance2";
                  lit "metadata"; lit "xesam:title"]
         :: before.
Proof.
  destruct (update_info_queries_selected playerctl_path ascii_capitalize
              two_players false firefox_selected)
    as (s' & before & R & H).
  assert (Hsel : selected_player s' = Some firefox).
  { assert (E : snd (update_info playerctl_path ascii_capitalize two_players false
                       firefox_selected) = s') by (rewrite R; reflexivity).
    rewrite <- E. vm_compute. reflexivity. }
  exists s', before. split; [exact R|]. split; [exact Hsel | exact (H firefox Hsel)].
Defined.

Lemma startup_report_witness :
  startup which_no_pactl (fun _ => false) false None = (ImportFails, [])
  /\ startup which_no_pactl (fun _ => false) true None
     = (Exits 1, command_missing (lit "pactl") ++ [dependencies_missing]).
Proof.
  split.
  - exact (proj1 (startup_report which_no_pactl (fun _ => false) false None)
             eq_refl).
  - exact (proj2 (startup_report which_no_pactl (fun _ => false) true None)
             eq_refl eq_refl).
Defined.

Lemma startup_sets_playerctl_witness :
  startup which_all (fun _ => true) true None = (Starts (Some playerctl_path), [])
  /\ exists path, Some playerctl_path = Some path /\ path <> [].
Proof.
  assert (E : startup which_all (fun _ => true) true None
              = (Starts (Some playerctl_path), []))
    by (vm_compute; reflexivity).
  split; [exact E|].
  destruct (startup_sets_playerctl which_all (fun _ => true) true None _ _ E)
    as (_ & path & Hp & Hne & _).
  exists path. split; assumption.
Defined.
